(** * TripPlanner: the Express backend (server.js), embedded and verified

    The backend is a single Express application: a health route, the
    plan-trip orchestration ([POST /api/trips/plan]) and a read of one trip
    ([GET /api/trips/:id]).  The handlers are asynchronous JavaScript that
    talk to three HTTP services and to a relational store through an ORM.

    The embedding keeps the shape of the source:
    - JavaScript values that come out of [JSON.parse] are the type [value];
      property reads, optional chaining, [||] and [??] are functions on it;
    - an [async] function is a computation in the monad [M]: it threads the
      store and the log of outbound effects, and either returns or throws;
    - what the process cannot decide (the answers of the network, the
      environment, the identifiers and faults of the database engine) is the
      record [World];
    - built-ins whose output is fixed by the language but not by this
      program ([ToString], [encodeURIComponent], [new Date(s)]) are section
      variables.

    The web client that calls the server (api/client.js, api/trips.js and
    the cards and sections of the planner page) is embedded the same way,
    as functions of the network it talks to. *)

From Stdlib Require Import String Ascii DecimalString List ZArith QArith Bool Lia.
From Stdlib Require Import Sorting.Sorted Sorting.Permutation.
Import ListNotations.
Open Scope string_scope.
Open Scope Z_scope.

(** ** JavaScript values *)

Module JS.

(** A number as [JSON.parse] can produce it: a finite double, kept as the
    rational it denotes, or an overflow to an infinity. *)
Inductive number : Type :=
| Fin (q : Q)
| Inf (negative : bool).

(** Strings are sequences of code units; [String.length] is [.length]. *)
#[warnings="-register-all"]
Inductive value : Type :=
| VUndef
| VNull
| VBool (b : bool)
| VNum (n : number)
| VStr (s : string)
| VArr (xs : list value)
| VObj (kvs : list (string * value)).

Definition num (z : Z) : value := VNum (Fin (inject_Z z)).

(** [Number.isInteger] *)
Definition isInteger (n : number) : bool :=
  match n with
  | Fin q => (Qnum q mod Zpos (Qden q) =? 0)
  | Inf _ => false
  end.

(** [n > 0] *)
Definition gt0 (n : number) : bool :=
  match n with
  | Fin q => (0 <? Qnum q)
  | Inf negative => negb negative
  end.

(** The integer an integral finite number denotes. *)
Definition to_Z (n : number) : Z :=
  match n with
  | Fin q => Qnum q / Zpos (Qden q)
  | Inf _ => 0
  end.

(** ToBoolean *)
Definition truthy (v : value) : bool :=
  match v with
  | VUndef | VNull => false
  | VBool b => b
  | VNum (Fin q) => negb (Qnum q =? 0)
  | VNum (Inf _) => true
  | VStr s => negb (s =? EmptyString)%string
  | VArr _ | VObj _ => true
  end.

Definition nullish (v : value) : bool :=
  match v with
  | VUndef | VNull => true
  | _ => false
  end.

(** [a || b] *)
Definition or_else (a b : value) : value := if truthy a then a else b.

(** [a ?? b] *)
Definition nullish_or (a b : value) : value := if nullish a then b else a.

Fixpoint own (kvs : list (string * value)) (k : string) : value :=
  match kvs with
  | [] => VUndef
  | (k', v) :: rest => if (k' =? k)%string then v else own rest k
  end.

(** [v.k] for a [v] that is not nullish and a key [k] that is an identifier
    of this program (never [length], never an index): only an object has
    such a property. *)
Definition prop (v : value) (k : string) : value :=
  match v with
  | VObj kvs => own kvs k
  | _ => VUndef
  end.

Definition index_key (i : nat) : string :=
  NilEmpty.string_of_uint (Nat.to_uint i).

(** [v[i]] for a [v] that is not nullish: an element of an array, a
    one-unit string of a string, the property named by the decimal of [i]
    of an object. *)
Definition index (v : value) (i : nat) : value :=
  match v with
  | VArr xs => nth i xs VUndef
  | VStr s =>
      match String.get i s with
      | Some c => VStr (String c EmptyString)
      | None => VUndef
      end
  | VObj kvs => own kvs (index_key i)
  | _ => VUndef
  end.

(** [v?.k] and [v?.[i]] *)
Definition opt_prop (v : value) (k : string) : value :=
  if nullish v then VUndef else prop v k.

Definition opt_index (v : value) (i : nat) : value :=
  if nullish v then VUndef else index v i.

(** A thrown [Error]; the handlers only ever read its [message]. *)
Record error : Type := Error { message : string }.

(** The text Node gives the TypeError of a property read on [null] or
    [undefined]. *)
Definition cannot_read (v : value) (k : string) : error :=
  Error ("Cannot read properties of "
         ++ (match v with VNull => "null" | _ => "undefined" end)
         ++ " (reading '" ++ k ++ "')").

(** [new Date(s)] *)
Inductive Date : Type :=
| InvalidDate
| DateAt (ms : Z).

End JS.
Import JS.

(** ** Input validation: [PlanTripSchema] *)

Module Zod.

Inductive issue_code : Type :=
| invalid_type
| too_small
| invalid_enum_value.

Record issue : Type := Issue { path : list string; code : issue_code }.

(** [z.string().min(n)] *)
Definition string_min (n : nat) (v : value) : list issue_code + string :=
  match v with
  | VStr s => if (String.length s <? n)%nat then inl [too_small] else inr s
  | _ => inl [invalid_type]
  end.

(** [z.number().int().positive()] as version 3 of the library runs it:
    both checks run on a number and each adds its own issue, and [int] is
    [Number.isInteger].  Version 4 stops at a failed [int] and counts an
    integer outside the safe range as none; the properties of validation
    below are worded so as to hold of either. *)
Definition number_int_positive (v : value) : list issue_code + Z :=
  match v with
  | VNum n =>
      match ((if isInteger n then [] else [invalid_type])
             ++ (if gt0 n then [] else [too_small]))%list with
      | [] => inr (to_Z n)
      | cs => inl cs
      end
  | _ => inl [invalid_type]
  end.

(** [error.flatten()]: issues at the root go to [formErrors], the others
    are grouped under the first element of their path. *)
Record flattened : Type := Flattened {
  formErrors : list issue_code;
  fieldErrors : list (string * list issue_code)
}.

Fixpoint add_field (k : string) (c : issue_code)
         (m : list (string * list issue_code)) : list (string * list issue_code) :=
  match m with
  | [] => [(k, [c])]
  | (k', cs) :: rest =>
      if (k' =? k)%string then (k', (cs ++ [c])%list) :: rest
      else (k', cs) :: add_field k c rest
  end.

Definition flatten_step (acc : flattened) (i : issue) : flattened :=
  match path i with
  | [] => Flattened (formErrors acc ++ [code i])%list (fieldErrors acc)
  | k :: _ => Flattened (formErrors acc) (add_field k (code i) (fieldErrors acc))
  end.

Definition flatten (issues : list issue) : flattened :=
  fold_left flatten_step issues (Flattened [] []).

End Zod.
Import Zod.

Inductive Vibe : Type := techno | nature | relax | food | mixed.

Definition Vibe_to_string (v : Vibe) : string :=
  match v with
  | techno => "techno"
  | nature => "nature"
  | relax => "relax"
  | food => "food"
  | mixed => "mixed"
  end.

Definition Vibe_values : list Vibe := [techno; nature; relax; food; mixed].

(** [z.enum(["techno", "nature", "relax", "food", "mixed"])] *)
Definition vibe_enum (v : value) : list issue_code + Vibe :=
  match v with
  | VStr s =>
      match find (fun x => (Vibe_to_string x =? s)%string) Vibe_values with
      | Some x => inr x
      | None => inl [invalid_enum_value]
      end
  | _ => inl [invalid_type]
  end.

(** [parsed.data] *)
Record PlanTripInput : Type := {
  userId : string;
  destination : string;
  startDate : string;
  endDate : string;
  budget : Z;
  vibe : Vibe
}.

Definition at_field {A} (k : string) (r : list issue_code + A) : list issue :=
  match r with
  | inl cs => map (Issue [k]) cs
  | inr _ => []
  end.

(** The issues of the six keys of the schema, in its order. *)
Definition field_issues (kvs : list (string * value)) : list issue :=
  (at_field "userId" (string_min 1 (own kvs "userId"))
   ++ at_field "destination" (string_min 2 (own kvs "destination"))
   ++ at_field "startDate" (string_min 8 (own kvs "startDate"))
   ++ at_field "endDate" (string_min 8 (own kvs "endDate"))
   ++ at_field "budget" (number_int_positive (own kvs "budget"))
   ++ at_field "vibe" (vibe_enum (own kvs "vibe")))%list.

(** [PlanTripSchema.safeParse(req.body)]: anything but an object is one
    issue at the root; an object has each of the six keys checked and
    every issue is kept; unknown keys are dropped. *)
Definition safeParse (body : value) : list issue + PlanTripInput :=
  match body with
  | VObj kvs =>
      match string_min 1 (own kvs "userId"),
            string_min 2 (own kvs "destination"),
            string_min 8 (own kvs "startDate"),
            string_min 8 (own kvs "endDate"),
            number_int_positive (own kvs "budget"),
            vibe_enum (own kvs "vibe") with
      | inr u, inr d, inr s, inr e, inr b, inr v =>
          inr {| userId := u; destination := d; startDate := s;
                 endDate := e; budget := b; vibe := v |}
      | _, _, _, _, _, _ => inl (field_issues kvs)
      end
  | _ => inl [Issue [] invalid_type]
  end.

(** *** The validation rules as the specification words them *)

Definition string_of_at_least (n : nat) (v : value) : bool :=
  match v with
  | VStr s => (n <=? String.length s)%nat
  | _ => false
  end.

Definition positive_integer (v : value) : bool :=
  match v with
  | VNum n => isInteger n && gt0 n
  | _ => false
  end.

Definition one_of_the_five (v : value) : bool :=
  match v with
  | VStr s => existsb (String.eqb s) ["techno"; "nature"; "relax"; "food"; "mixed"]
  | _ => false
  end.

Definition requirements : list (string * (value -> bool)) :=
  [ ("userId", string_of_at_least 1);
    ("destination", string_of_at_least 2);
    ("startDate", string_of_at_least 8);
    ("endDate", string_of_at_least 8);
    ("budget", positive_integer);
    ("vibe", one_of_the_five) ].

(** [Number.MAX_SAFE_INTEGER] *)
Definition MAX_SAFE_INTEGER : Z := 9007199254740991.

(** A number above the safe integers, the one kind of value on which the
    versions of the schema library differ as to what an integer is. *)
Definition above_safe_integers (v : value) : bool :=
  match v with
  | VNum (Fin q) => negb (Qle_bool q (inject_Z MAX_SAFE_INTEGER))
  | _ => false
  end.

(** ** Records the server builds *)

(** What [geocodeCity] returns for a match. *)
Record Geo : Type := {
  name : value;
  country : value;
  latitude : value;
  longitude : value;
  timezone : value
}.

(** What [fetchWeather] returns. *)
Record Weather : Type := {
  time : value;
  tempMax : value;
  tempMin : value;
  precipitation : value
}.

Record Location : Type := { lon : value; lat : value }.

(** One normalised place of [fetchPlaces]. *)
Record Place : Type := {
  placeId : value;
  place_name : value;
  categories : value;
  addressLine1 : value;
  addressLine2 : value;
  city : value;
  place_country : value;
  distanceMeters : value;
  location : Location;
  website : value;
  openingHours : value
}.

Record PlanDestination : Type := {
  query : string;
  resolved : string;
  dest_latitude : value;
  dest_longitude : value;
  dest_timezone : value
}.

Record PlanTrip : Type := {
  trip_startDate : string;
  trip_endDate : string;
  trip_budget : Z;
  trip_vibe : Vibe
}.

Record PlanJson : Type := {
  plan_destination : PlanDestination;
  plan_trip : PlanTrip;
  weather_daily : Weather;
  restaurants : list Place;
  attractions : list Place;
  summary : string;
  nextIdeas : list string
}.

(** The [data] argument of [prisma.trip.create]. *)
Record TripData : Type := {
  data_title : string;
  data_destination : value;
  data_startDate : Date;
  data_endDate : Date;
  data_budget : Z;
  data_vibe : Vibe;
  data_planJson : PlanJson;
  data_user : string
}.

(** ** The trip store *)

(** Modelled from the spec: the schema of the store (prisma/schema.prisma)
    is not among the sources.  A [User] has an id, a unique email, a
    password and a name; a [Trip] has an id, the columns the server writes,
    the id of its owner and a creation time. *)
Record User : Type := {
  user_id : string;
  email : string;
  password : string;
  user_name : string
}.

(** Modelled from the spec: a row of the trip table, of the same absent
    schema: what the engine adds ([id], [createdAt]) and what the server
    wrote. *)
Record Trip : Type := {
  id : string;
  createdAt : Z;
  columns : TripData
}.

(** Modelled from the spec: the two tables; trips are kept in the order
    of their insertion. *)
Record Store : Type := { users : list User; trips : list Trip }.

Definition has_user (s : Store) (u : string) : bool :=
  existsb (fun x => (user_id x =? u)%string) (users s).

Definition find_trip (s : Store) (i : string) : option Trip :=
  find (fun t => (id t =? i)%string) (trips s).

Definition insert_trip (s : Store) (t : Trip) : Store :=
  {| users := users s; trips := (trips s ++ [t])%list |}.

(** ** The world outside the process *)

(** A settled [fetch]: the promise rejects, or it yields a response with a
    status and a body that [resp.json()] parses or rejects. *)
Record Response : Type := { status : Z; json : error + value }.

Inductive fetched : Type :=
| NetworkError (e : error)
| Answer (r : Response).

(** [resp.ok] *)
Definition ok (r : Response) : bool := (200 <=? status r) && (status r <=? 299).

(** Everything a request depends on and the server does not decide: the
    answers of the network, the places key of [process.env], and the
    database engine: the fault with which it refuses an operation for
    reasons of its own (lost connection, rejected argument), the error of a
    violated constraint, and the id and time it gives a new row. *)
Record World : Type := {
  network : string -> fetched;
  GEOAPIFY_API_KEY : option string;
  write_fault : TripData -> option error;
  read_fault : option error;
  constraint_error : error;
  new_id : string;
  now : Z
}.

(** ** Asynchronous code as a state-and-exception monad *)

Inductive event : Type :=
| Fetch (url : string)
| TripCreate (data : TripData)
| TripFindUnique (i : string)
| ConsoleError (e : error).

(** The state a handler runs in: the store and the log of the effects it
    has issued, latest last. *)
Record Sys : Type := { store : Store; log : list event }.

Inductive outcome (A : Type) : Type :=
| Return (a : A)
| Throw (e : error).
Arguments Return {A} a.
Arguments Throw {A} e.

Definition M (A : Type) : Type := Sys -> outcome A * Sys.

Definition ret {A} (a : A) : M A := fun s => (Return a, s).

Definition throw {A} (e : error) : M A := fun s => (Throw e, s).

Definition bind {A B} (m : M A) (k : A -> M B) : M B :=
  fun s =>
    match m s with
    | (Return a, s') => k a s'
    | (Throw e, s') => (Throw e, s')
    end.

(** [try { m } catch (err) { h err }] *)
Definition try_catch {A} (m : M A) (h : error -> M A) : M A :=
  fun s =>
    match m s with
    | (Return a, s') => (Return a, s')
    | (Throw e, s') => h e s'
    end.

Definition emit (ev : event) : M unit :=
  fun s => (Return tt, {| store := store s; log := (log s ++ [ev])%list |}).

Declare Scope async_scope.
Delimit Scope async_scope with async.
Notation "x <- m ;; k" := (bind m (fun x => k))
  (at level 61, m at next level, right associativity) : async_scope.
Notation "m ;;; k" := (bind m (fun _ => k))
  (at level 61, right associativity) : async_scope.
Open Scope async_scope.

(** [await fetch(url)] *)
Definition fetch (w : World) (url : string) : M Response :=
  emit (Fetch url) ;;;
  match network w url with
  | NetworkError e => throw e
  | Answer r => ret r
  end.

(** [await resp.json()] *)
Definition resp_json (r : Response) : M value :=
  match json r with
  | inl e => throw e
  | inr v => ret v
  end.

(** [f.k] on a value that may be nullish *)
Definition member (v : value) (k : string) : M value :=
  if nullish v then throw (cannot_read v k) else ret (prop v k).

Fixpoint mapM {A B} (f : A -> M B) (xs : list A) : M (list B) :=
  match xs with
  | [] => ret []
  | x :: rest => y <- f x ;; ys <- mapM f rest ;; ret (y :: ys)
  end.

(** Modelled from the spec: [prisma.trip.create] runs in the ORM and the
    database, which are not among the sources.  The engine may refuse the
    write; the owner must exist (foreign key); the id of the new row must
    be unused (primary key); otherwise the row is appended.  A refused
    write leaves the store as it was. *)
Definition prisma_trip_create (w : World) (data : TripData) : M Trip :=
  emit (TripCreate data) ;;;
  fun s =>
    match write_fault w data with
    | Some e => (Throw e, s)
    | None =>
        if negb (has_user (store s) (data_user data)) then
          (Throw (constraint_error w), s)
        else
          match find_trip (store s) (new_id w) with
          | Some _ => (Throw (constraint_error w), s)
          | None =>
              let t := {| id := new_id w; createdAt := now w; columns := data |} in
              (Return t, {| store := insert_trip (store s) t; log := log s |})
          end
    end.

(** Modelled from the spec: [prisma.trip.findUnique], of the same absent
    engine: the row with that id, or [null]. *)
Definition prisma_trip_findUnique (w : World) (i : string) : M (option Trip) :=
  emit (TripFindUnique i) ;;;
  fun s =>
    match read_fault w with
    | Some e => (Throw e, s)
    | None => (Return (find_trip (store s) i), s)
    end.

(** ** What a handler sends *)

Inductive payload : Type :=
| Health                                   (* { ok: true, service: "trip-planner-api" } *)
| InvalidInput (details : flattened)       (* { error: "Invalid input", details } *)
| ErrorMessage (err msg : string)          (* { error, message } *)
| ErrorOnly (err : string)                 (* { error } *)
| TripRecord (t : Trip).                   (* the row *)

Record reply : Type := { sent_status : Z; sent_body : payload }.

Definition dquote : string := String (ascii_of_nat 34) EmptyString.

(** ** A concrete runtime and world, for runs of the model *)

Module Sample.

(** A rendition of the conversion to string that is exact on strings,
    integers, booleans, [null] and [undefined]. *)
Definition ToString (v : value) : string :=
  match v with
  | VUndef => "undefined"
  | VNull => "null"
  | VBool b => if b then "true" else "false"
  | VNum (Fin q) => NilZero.string_of_int (Z.to_int (Qnum q / Zpos (Qden q)))
  | VNum (Inf negative) => if negative then "-Infinity" else "Infinity"
  | VStr s => s
  | VArr _ => EmptyString
  | VObj _ => "[object Object]"
  end.

(** An encoder that escapes nothing. *)
Definition encodeURIComponent (s : string) : option string := Some s.

(** The two ISO days of the runs, as milliseconds since the epoch; any
    other text is no date. *)
Definition Date_parse (s : string) : Date :=
  if (s =? "2026-07-10")%string then DateAt 1783641600000
  else if (s =? "2026-07-14")%string then DateAt 1783987200000
  else InvalidDate.

Definition amsterdam : value :=
  VObj [("results",
         VArr [VObj [("name", VStr "Amsterdam"); ("country", VStr "Netherlands");
                     ("latitude", num 52); ("longitude", num 5);
                     ("timezone", VStr "Europe/Amsterdam")]])].

Definition forecast : value :=
  VObj [("daily",
         VObj [("time", VArr [VStr "2026-07-10"]);
               ("temperature_2m_max", VArr [num 24]);
               ("temperature_2m_min", VArr [num 15])])].

Definition cafe : value :=
  VObj [("properties",
         VObj [("place_id", VStr "p1"); ("name", VStr "Cafe Luxembourg");
               ("categories", VArr [VStr "catering.cafe"]);
               ("address_line1", VStr "Spui 24"); ("distance", num 0)]);
        ("geometry", VObj [("coordinates", VArr [num 5; num 52])])].

Definition nameless : value :=
  VObj [("properties", VObj [("address_line1", VStr "Damrak 1")])].

Definition bare : value := VObj [].

Definition places : value := VObj [("features", VArr [cafe; nameless; bare])].

Definition answer (code : Z) (v : value) : fetched :=
  Answer {| status := code; json := inr v |}.

(** Every service answers. *)
Definition network_up (url : string) : fetched :=
  if prefix "https://geocoding-api.open-meteo.com/" url then answer 200 amsterdam
  else if prefix "https://api.open-meteo.com/" url then answer 200 forecast
  else answer 200 places.

(** The forecast service is down. *)
Definition network_no_weather (url : string) : fetched :=
  if prefix "https://api.open-meteo.com/" url then answer 503 VNull
  else network_up url.

(** The geocoder knows no such place. *)
Definition network_no_match (url : string) : fetched :=
  if prefix "https://geocoding-api.open-meteo.com/" url then answer 200 (VObj [])
  else network_up url.

Definition world : World :=
  {| network := network_up;
     GEOAPIFY_API_KEY := Some "k3y";
     write_fault := fun _ => None;
     read_fault := None;
     constraint_error := Error "Unique or foreign key constraint failed";
     new_id := "t1";
     now := 1783000000000 |}.

Definition with_network (net : string -> fetched) (w : World) : World :=
  {| network := net;
     GEOAPIFY_API_KEY := GEOAPIFY_API_KEY w;
     write_fault := write_fault w;
     read_fault := read_fault w;
     constraint_error := constraint_error w;
     new_id := new_id w;
     now := now w |}.

Definition without_key (w : World) : World :=
  {| network := network w;
     GEOAPIFY_API_KEY := None;
     write_fault := write_fault w;
     read_fault := read_fault w;
     constraint_error := constraint_error w;
     new_id := new_id w;
     now := now w |}.

Definition with_read_fault (e : error) (w : World) : World :=
  {| network := network w;
     GEOAPIFY_API_KEY := GEOAPIFY_API_KEY w;
     write_fault := write_fault w;
     read_fault := Some e;
     constraint_error := constraint_error w;
     new_id := new_id w;
     now := now w |}.

(** The same world a moment later: the engine hands out another id. *)
Definition later (w : World) : World :=
  {| network := network w;
     GEOAPIFY_API_KEY := GEOAPIFY_API_KEY w;
     write_fault := write_fault w;
     read_fault := read_fault w;
     constraint_error := constraint_error w;
     new_id := "t2";
     now := now w + 1000 |}.

Definition demo_user : User :=
  {| user_id := "u1"; email := "demo@tripplanner.com";
     password := "password123"; user_name := "Demo User" |}.

Definition start : Sys :=
  {| store := {| users := [demo_user]; trips := [] |}; log := [] |}.

Definition request_body (startDate endDate : string) (budget : value) : value :=
  VObj [("userId", VStr "u1"); ("destination", VStr "Amsterdam");
        ("startDate", VStr startDate); ("endDate", VStr endDate);
        ("budget", budget); ("vibe", VStr "techno")].

Definition body : value := request_body "2026-07-10" "2026-07-14" (num 1200).

(** What the geocoder of [network_up] resolves. *)
Definition geo : Geo :=
  {| name := VStr "Amsterdam"; country := VStr "Netherlands";
     latitude := num 52; longitude := num 5;
     timezone := VStr "Europe/Amsterdam" |}.

(** What validation makes of [body]. *)
Definition parsed : PlanTripInput :=
  {| userId := "u1"; destination := "Amsterdam"; startDate := "2026-07-10";
     endDate := "2026-07-14"; budget := 1200; vibe := techno |}.

(** The same request under a nickname of the city, which the geocoder of
    [network_up] resolves to the same match. *)
Definition nickname_body : value :=
  VObj [("userId", VStr "u1"); ("destination", VStr "Mokum");
        ("startDate", VStr "2026-07-10"); ("endDate", VStr "2026-07-14");
        ("budget", num 1200); ("vibe", VStr "techno")].

Definition nickname_parsed : PlanTripInput :=
  {| userId := "u1"; destination := "Mokum"; startDate := "2026-07-10";
     endDate := "2026-07-14"; budget := 1200; vibe := techno |}.

(** The geocoder is down. *)
Definition network_no_geocoder (url : string) : fetched :=
  if prefix "https://geocoding-api.open-meteo.com/" url then answer 502 VNull
  else network_up url.

(** The forecast service answers without a forecast. *)
Definition network_bare_weather (url : string) : fetched :=
  if prefix "https://api.open-meteo.com/" url then answer 200 (VObj [])
  else network_up url.

(** The places service answers without features, or with a [null] among
    them. *)
Definition network_no_features (url : string) : fetched :=
  if prefix "https://api.geoapify.com/" url then answer 200 (VObj [])
  else network_up url.

Definition network_null_feature (url : string) : fetched :=
  if prefix "https://api.geoapify.com/" url
  then answer 200 (VObj [("features", VArr [cafe; VNull])])
  else network_up url.

(** Stand-ins for the serialisers and for the conversion to number of
    what is no number. *)
Definition JSON_stringify (v : value) : string := "{}".
Definition details_json (d : flattened) : value := VObj [].
Definition trip_json (t : Trip) : value := VObj [("id", VStr (id t))].
Definition ToNumber (v : value) : option number := None.

(** Three places as the planner page gets them: one 350 m away, one
    1200 m away, one without a distance. *)
Definition near : value :=
  VObj [("name", VStr "Cafe Luxembourg"); ("distanceMeters", num 350);
        ("location", VObj [("lon", num 5); ("lat", num 52)])].
Definition far : value :=
  VObj [("name", VStr "De Kas"); ("distanceMeters", num 1200)].
Definition somewhere : value :=
  VObj [("name", VStr "Damrak 1"); ("distanceMeters", VNull)].

(** A feature whose name is a number too large for a double. *)
Definition overflowed : value :=
  VObj [("properties", VObj [("name", VNum (Inf false))])].

(** Eight places of a section, by their distance in metres. *)
Definition at_distance (d : Z) : value :=
  VObj [("name", VStr "Stop"); ("distanceMeters", num d)].

Definition eight_places : list value :=
  map at_distance [900; 100; 800; 200; 700; 300; 600; 400].

End Sample.

(** ** The server *)

Section Server.

(** The conversion a template literal applies to an interpolated value. *)
Variable ToString : value -> string.

(** [encodeURIComponent]; [None] is its URIError. *)
Variable encodeURIComponent : string -> option string.

(** [new Date(s)] on a string. *)
Variable Date_parse : string -> Date.

Definition encode (s : string) : M string :=
  match encodeURIComponent s with
  | Some e => ret e
  | None => throw (Error "URI malformed")
  end.

Definition geocode_url (q : string) : string :=
  "https://geocoding-api.open-meteo.com/v1/search?name=" ++ q
  ++ "&count=1&language=en&format=json".

(** [geocodeCity(destination)] *)
Definition geocodeCity (w : World) (destination : string) : M (option Geo) :=
  q <- encode destination ;;
  let url := geocode_url q in
  resp <- fetch w url ;;
  if negb (ok resp) then
    throw (Error ("Geocoding failed with status " ++ ToString (num (status resp))))
  else
    data <- resp_json resp ;;
    let top := opt_index (opt_prop data "results") 0 in
    if negb (truthy top) then ret None
    else ret (Some {| name := prop top "name";
                      country := prop top "country";
                      latitude := prop top "latitude";
                      longitude := prop top "longitude";
                      timezone := prop top "timezone" |}).

(** [fetchWeather(latitude, longitude, timezone)] *)
Definition fetchWeather (w : World) (latitude longitude timezone : value) : M Weather :=
  tz <- encode (ToString (or_else timezone (VStr "auto"))) ;;
  let url := "https://api.open-meteo.com/v1/forecast?latitude=" ++ ToString latitude
             ++ "&longitude=" ++ ToString longitude
             ++ "&daily=temperature_2m_max,temperature_2m_min,precipitation_sum&timezone="
             ++ tz in
  resp <- fetch w url ;;
  if negb (ok resp) then
    throw (Error ("Weather failed with status " ++ ToString (num (status resp))))
  else
    data <- resp_json resp ;;
    let daily := opt_prop data "daily" in
    ret {| time := or_else (opt_prop daily "time") (VArr []);
           tempMax := or_else (opt_prop daily "temperature_2m_max") (VArr []);
           tempMin := or_else (opt_prop daily "temperature_2m_min") (VArr []);
           precipitation := or_else (opt_prop daily "precipitation_sum") (VArr []) |}.

(** The argument object of [fetchPlaces]; an absent [limit] is 10. *)
Record PlacesQuery : Type := {
  q_lon : value;
  q_lat : value;
  radiusMeters : Z;
  q_categories : string;
  limit : option Z
}.

(** The callback of [features.map]. *)
Definition normalize (f : value) : M Place :=
  properties <- member f "properties" ;;
  let p := or_else properties (VObj []) in
  let coords := or_else (opt_prop (prop f "geometry") "coordinates") (VArr []) in
  ret {| placeId := prop p "place_id";
         place_name := or_else (or_else (prop p "name") (prop p "address_line1"))
                               (VStr "Unknown place");
         categories := or_else (prop p "categories") (VArr []);
         addressLine1 := or_else (prop p "address_line1") (VStr EmptyString);
         addressLine2 := or_else (prop p "address_line2") (VStr EmptyString);
         city := or_else (prop p "city") (VStr EmptyString);
         place_country := or_else (prop p "country") (VStr EmptyString);
         distanceMeters := nullish_or (prop p "distance") VNull;
         location := {| lon := index coords 0; lat := index coords 1 |};
         website := or_else (prop p "website") VNull;
         openingHours := or_else (prop p "opening_hours") VNull |}.

(** [!apiKey] *)
Definition key_missing (k : option string) : bool :=
  match k with
  | None => true
  | Some s => (s =? EmptyString)%string
  end.

(** [fetchPlaces({ lon, lat, radiusMeters, categories, limit = 10 })] *)
Definition fetchPlaces (w : World) (a : PlacesQuery) : M (list Place) :=
  let apiKey := GEOAPIFY_API_KEY w in
  if key_missing apiKey then
    throw (Error "Missing GEOAPIFY_API_KEY in backend/.env")
  else
    cats <- encode (q_categories a) ;;
    key <- encode (match apiKey with Some k => k | None => EmptyString end) ;;
    let url := "https://api.geoapify.com/v2/places"
               ++ "?categories=" ++ cats
               ++ "&filter=circle:" ++ ToString (q_lon a) ++ "," ++ ToString (q_lat a)
               ++ "," ++ ToString (num (radiusMeters a))
               ++ "&limit=" ++ ToString (num (match limit a with Some l => l | None => 10 end))
               ++ "&apiKey=" ++ key in
    resp <- fetch w url ;;
    if negb (ok resp) then
      throw (Error ("Geoapify Places failed with status " ++ ToString (num (status resp))))
    else
      data <- resp_json resp ;;
      match nullish_or (opt_prop data "features") (VArr []) with
      | VArr features => mapM normalize features
      | _ => throw (Error "features.map is not a function")
      end.

(** The two buckets the handler asks for, both around the resolved
    coordinates. *)
Definition restaurants_query (geo : Geo) : PlacesQuery :=
  {| q_lon := longitude geo; q_lat := latitude geo; radiusMeters := 5000;
     q_categories := "catering.restaurant,catering.cafe"; limit := Some 12 |}.

Definition attractions_query (geo : Geo) : PlacesQuery :=
  {| q_lon := longitude geo; q_lat := latitude geo; radiusMeters := 8000;
     q_categories := "tourism.attraction,tourism.sights"; limit := Some 12 |}.

Definition nextIdeas_text : list string :=
  [ "Add Place Details endpoint (click a place card → details)";
    "Add caching (Redis) so repeated searches are fast";
    "Add pagination + category filters in UI" ].

(** The object literal [planJson]. *)
Definition build_planJson (parsed : PlanTripInput) (geo : Geo) (weather : Weather)
           (restaurants attractions : list Place) : PlanJson :=
  {| plan_destination :=
       {| query := destination parsed;
          resolved := ToString (name geo) ++ ", " ++ ToString (country geo);
          dest_latitude := latitude geo;
          dest_longitude := longitude geo;
          dest_timezone := timezone geo |};
     plan_trip :=
       {| trip_startDate := startDate parsed;
          trip_endDate := endDate parsed;
          trip_budget := budget parsed;
          trip_vibe := vibe parsed |};
     weather_daily := weather;
     restaurants := restaurants;
     attractions := attractions;
     summary := "A " ++ Vibe_to_string (vibe parsed) ++ " trip to "
                ++ ToString (name geo) ++ " within $"
                ++ ToString (num (budget parsed))
                ++ ". Includes weather + nearby places (MVP).";
     nextIdeas := nextIdeas_text |}.

(** The [data] of the write. *)
Definition build_data (parsed : PlanTripInput) (geo : Geo) (planJson : PlanJson) : TripData :=
  {| data_title := ToString (name geo) ++ " trip";
     data_destination := name geo;
     data_startDate := Date_parse (startDate parsed);
     data_endDate := Date_parse (endDate parsed);
     data_budget := budget parsed;
     data_vibe := vibe parsed;
     data_planJson := planJson;
     data_user := userId parsed |}.

Definition not_found_message (destination : string) : string :=
  "Could not find coordinates for " ++ dquote ++ destination ++ dquote
  ++ ". Try a bigger city name.".

(** The body of the [try] of [POST /api/trips/plan]. *)
Definition plan_trip_try (w : World) (body : value) : M reply :=
  match safeParse body with
  | inl issues =>
      ret {| sent_status := 400; sent_body := InvalidInput (flatten issues) |}
  | inr parsed =>
      geo <- geocodeCity w (destination parsed) ;;
      match geo with
      | None =>
          ret {| sent_status := 404;
                 sent_body := ErrorMessage "Destination not found"
                                (not_found_message (destination parsed)) |}
      | Some geo =>
          weather <- fetchWeather w (latitude geo) (longitude geo) (timezone geo) ;;
          restaurants <- fetchPlaces w (restaurants_query geo) ;;
          attractions <- fetchPlaces w (attractions_query geo) ;;
          let planJson := build_planJson parsed geo weather restaurants attractions in
          trip <- prisma_trip_create w (build_data parsed geo planJson) ;;
          ret {| sent_status := 201; sent_body := TripRecord trip |}
      end
  end.

(** The reply of the [catch]: [err.message || "Unknown error"]. *)
Definition server_error (err : error) : reply :=
  {| sent_status := 500;
     sent_body := ErrorMessage "Server error"
       (if (message err =? EmptyString)%string then "Unknown error" else message err) |}.

(** [app.post("/api/trips/plan", ...)] *)
Definition plan_trip_handler (w : World) (body : value) : M reply :=
  try_catch (plan_trip_try w body)
            (fun err => emit (ConsoleError err) ;;; ret (server_error err)).

(** [app.get("/api/trips/:id", ...)]: no [try] around the lookup, so its
    rejection is the rejection of the handler. *)
Definition get_trip_handler (w : World) (i : string) : M reply :=
  trip <- prisma_trip_findUnique w i ;;
  match trip with
  | None => ret {| sent_status := 404; sent_body := ErrorOnly "Trip not found" |}
  | Some t => ret {| sent_status := 200; sent_body := TripRecord t |}
  end.

(** [app.get("/api/health", ...)] *)
Definition health_handler : M reply :=
  ret {| sent_status := 200; sent_body := Health |}.

(** *** Routing *)

Inductive Method : Type := GET | POST | PUT | DELETE.

Definition Method_eqb (a b : Method) : bool :=
  match a, b with
  | GET, GET | POST, POST | PUT, PUT | DELETE, DELETE => true
  | _, _ => false
  end.

(** A request as the router sees it: the method, the segments of the path
    and the query string apart, the parsed body. *)
Record Request : Type := {
  method : Method;
  url_path : list string;
  url_query : list (string * string);
  req_body : value
}.

Inductive segment : Type :=
| Lit (s : string)
| Param (p : string).

(** Express matches a path pattern segment by segment; a parameter takes
    one segment, which is not empty.  The result is [req.params]. *)
Fixpoint match_path (pat : list segment) (p : list string) : option (list (string * string)) :=
  match pat, p with
  | [], [] => Some []
  | Lit s :: pat', x :: p' =>
      if (s =? x)%string then match_path pat' p' else None
  | Param k :: pat', x :: p' =>
      if (x =? EmptyString)%string then None
      else option_map (cons (k, x)) (match_path pat' p')
  | _, _ => None
  end.

Fixpoint assoc (kvs : list (string * string)) (k : string) : string :=
  match kvs with
  | [] => EmptyString
  | (k', v) :: rest => if (k' =? k)%string then v else assoc rest k
  end.

Definition route : Type :=
  Method * list segment * (World -> Request -> list (string * string) -> M reply).

(** The routes in the order the file registers them. *)
Definition routes : list route :=
  [ (GET, [Lit "api"; Lit "health"], fun _ _ _ => health_handler);
    (POST, [Lit "api"; Lit "trips"; Lit "plan"],
       fun w req _ => plan_trip_handler w (req_body req));
    (GET, [Lit "api"; Lit "trips"; Param "id"],
       fun w _ params => get_trip_handler w (assoc params "id")) ].

(** The first route whose method and pattern match handles the request;
    [None] when no route matches and the request falls through to the
    framework. *)
Fixpoint dispatch (rs : list route) (w : World) (req : Request) : option (M reply) :=
  match rs with
  | [] => None
  | (m, pat, h) :: rest =>
      if Method_eqb m (method req) then
        match match_path pat (url_path req) with
        | Some params => Some (h w req params)
        | None => dispatch rest w req
        end
      else dispatch rest w req
  end.

Definition app (w : World) (req : Request) : option (M reply) :=
  dispatch routes w req.

(** *** The web client: api/client.js and api/trips.js *)

(** [JSON.stringify] on a value that is not [undefined]. *)
Variable JSON_stringify : value -> string.

(** What the browser gets from [res.json(...)] of the server for the
    flattened issues and for a row. *)
Variable details_json : flattened -> value.
Variable trip_json : Trip -> value.

(** Setting a property of an object: the value of a key it has is
    replaced where it is, a new key comes last. *)
Fixpoint set_key (k : string) (v : value) (o : list (string * value))
  : list (string * value) :=
  match o with
  | [] => [(k, v)]
  | (k', v') :: rest =>
      if (k' =? k)%string then (k', v) :: rest else (k', v') :: set_key k v rest
  end.

(** [{ ...o, ...extra }]: the properties of [extra] are set one by one. *)
Definition assign (o extra : list (string * value)) : list (string * value) :=
  fold_left (fun acc kv => set_key (fst kv) (snd kv) acc) extra o.

Fixpoint indexed (i : nat) (xs : list value) : list (string * value) :=
  match xs with
  | [] => []
  | x :: rest => (index_key i, x) :: indexed (S i) rest
  end.

Fixpoint units (s : string) : list value :=
  match s with
  | EmptyString => []
  | String c rest => VStr (String c EmptyString) :: units rest
  end.

(** The properties a spread copies out of a value: those of an object,
    the elements of an array and the units of a string under their
    indices, nothing of the rest. *)
Definition enumerable (v : value) : list (string * value) :=
  match v with
  | VObj kvs => kvs
  | VArr xs => indexed 0 xs
  | VStr s => indexed 0 (units s)
  | _ => []
  end.

Definition API_BASE : string := "http://localhost:8090".

(** The [headers] that [request] sends. *)
Definition request_headers (options : list (string * value)) : list (string * value) :=
  assign [("Content-Type", VStr "application/json")]
         (enumerable (or_else (own options "headers") (VObj []))).

(** The second argument of the [fetch] of [request]:
    [{ ...options, headers: { ... } }], for [options] an object. *)
Definition request_init (options : list (string * value)) : list (string * value) :=
  set_key "headers" (VObj (request_headers options)) options.

(** [request(path, options)], against a network that settles the fetch
    of an address with an init object. *)
Definition request (net : string -> list (string * value) -> fetched)
           (path : string) (options : list (string * value)) : outcome value :=
  let url := API_BASE ++ path in
  match net url (request_init options) with
  | NetworkError e => Throw e
  | Answer res =>
      let data := match json res with inr v => v | inl _ => VNull end in
      if negb (ok res) then
        let message :=
          or_else (or_else (opt_prop data "message") (opt_prop data "error"))
                  (VStr ("Request failed with status " ++ ToString (num (status res)))) in
        Throw (Error (ToString message))
      else Return data
  end.

(** The options of [planTrip]: [JSON.stringify(undefined)] is
    [undefined]. *)
Definition planTrip_options (payload : value) : list (string * value) :=
  [ ("method", VStr "POST");
    ("body", match payload with
             | VUndef => VUndef
             | _ => VStr (JSON_stringify payload)
             end) ].

(** [planTrip(payload)] *)
Definition planTrip (net : string -> list (string * value) -> fetched)
           (payload : value) : outcome value :=
  request net "/api/trips/plan" (planTrip_options payload).

(** [listTrips(userId)] *)
Definition listTrips (net : string -> list (string * value) -> fetched)
           (userId : value) : outcome value :=
  match encodeURIComponent (ToString userId) with
  | None => Throw (Error "URI malformed")
  | Some u => request net ("/api/trips?userId=" ++ u) [("method", VStr "GET")]
  end.

(** [getTrip(id)] *)
Definition getTrip (net : string -> list (string * value) -> fetched)
           (i : value) : outcome value :=
  match encodeURIComponent (ToString i) with
  | None => Throw (Error "URI malformed")
  | Some u => request net ("/api/trips/" ++ u) [("method", VStr "GET")]
  end.

(** The object a handler passes to [res.json], as the browser parses
    it. *)
Definition wire (b : payload) : value :=
  match b with
  | Health => VObj [("ok", VBool true); ("service", VStr "trip-planner-api")]
  | InvalidInput d => VObj [("error", VStr "Invalid input"); ("details", details_json d)]
  | ErrorMessage e m => VObj [("error", VStr e); ("message", VStr m)]
  | ErrorOnly e => VObj [("error", VStr e)]
  | TripRecord t => trip_json t
  end.

(** The response the browser gets for a reply of the server. *)
Definition deliver (r : reply) : Response :=
  {| status := sent_status r; json := inr (wire (sent_body r)) |}.

(** *** The planner page: [PlaceCard] and [PlacesSection] *)

(** The conversion to number of a value that is not a number; [None] is
    [NaN]. *)
Variable ToNumber : value -> option number.

Definition to_number (v : value) : option number :=
  match v with
  | VNum n => Some n
  | _ => ToNumber v
  end.

(** [place?.name || "Unknown place"] *)
Definition card_title (place : value) : value :=
  or_else (opt_prop place "name") (VStr "Unknown place").

(** [googleMapsLink({ lat, lon, name })]; [None] is the URIError of the
    encoding. *)
Definition googleMapsLink (lat lon name : value) : option string :=
  option_map (fun query => "https://www.google.com/maps/search/?api=1&query=" ++ query)
    (encodeURIComponent
       (if truthy name then ToString name
        else ToString lat ++ "," ++ ToString lon)).

(** The address of the [Open in Maps] link of a card, when the card has
    the link: [lat != null && lon != null]. *)
Definition card_maps_link (place : value) : option (option string) :=
  let lat := opt_prop (opt_prop place "location") "lat" in
  let lon := opt_prop (opt_prop place "location") "lon" in
  if negb (nullish lat) && negb (nullish lon)
  then Some (googleMapsLink lat lon (card_title place))
  else None.

(** [a?.distanceMeters ?? Number.POSITIVE_INFINITY] *)
Definition distance_key (a : value) : option number :=
  to_number (nullish_or (opt_prop a "distanceMeters") (VNum (Inf false))).

(** The sign of [x - y]; [None] is [NaN]. *)
Definition minus_sign (x y : option number) : option comparison :=
  match x, y with
  | Some (Fin p), Some (Fin q) => Some (p ?= q)%Q
  | Some (Inf n), Some (Inf m) =>
      if Bool.eqb n m then None else Some (if n then Lt else Gt)
  | Some (Inf n), Some (Fin _) => Some (if n then Lt else Gt)
  | Some (Fin _), Some (Inf m) => Some (if m then Gt else Lt)
  | _, _ => None
  end.

(** The comparator of the sort, as the sort reads it: [NaN] counts as
    zero. *)
Definition by_distance (a b : value) : comparison :=
  match minus_sign (distance_key a) (distance_key b) with
  | Some c => c
  | None => Eq
  end.

(** [Array.prototype.sort] is stable; for a comparator that orders its
    input it returns the one stable arrangement, the one of insertion. *)
Fixpoint insert_by (cmp : value -> value -> comparison) (x : value) (l : list value)
  : list value :=
  match l with
  | [] => [x]
  | y :: rest =>
      match cmp x y with
      | Gt => y :: insert_by cmp x rest
      | _ => x :: y :: rest
      end
  end.

Fixpoint sort_by (cmp : value -> value -> comparison) (l : list value) : list value :=
  match l with
  | [] => []
  | x :: rest => insert_by cmp x (sort_by cmp rest)
  end.

(** [[...v]]: the elements of an array, the units of a string; [None]
    is the TypeError of a value that cannot be iterated. *)
Definition spread (v : value) : option (list value) :=
  match v with
  | VArr xs => Some xs
  | VStr s => Some (units s)
  | _ => None
  end.

Definition is_undefined (v : value) : bool :=
  match v with
  | VUndef => true
  | _ => false
  end.

(** [l.sort(cmp)]: the elements that are [undefined] go last, without
    being compared; the others are sorted. *)
Definition array_sort (cmp : value -> value -> comparison) (l : list value) : list value :=
  (sort_by cmp (filter (fun v => negb (is_undefined v)) l) ++ filter is_undefined l)%list.

(** [sorted] of [PlacesSection]. *)
Definition sorted_places (places : value) : option (list value) :=
  option_map (array_sort by_distance) (spread (or_else places (VArr []))).

(** [visible] of [PlacesSection]. *)
Definition visible_places (showAll : bool) (sorted : list value) : list value :=
  if showAll then sorted else firstn 6 sorted.

(** The object literal of the callback of [fetchPlaces], as an object. *)
Definition Place_object (pl : Place) : value :=
  VObj [ ("placeId", placeId pl);
         ("name", place_name pl);
         ("categories", categories pl);
         ("addressLine1", addressLine1 pl);
         ("addressLine2", addressLine2 pl);
         ("city", city pl);
         ("country", place_country pl);
         ("distanceMeters", distanceMeters pl);
         ("location", VObj [("lon", lon (location pl)); ("lat", lat (location pl))]);
         ("website", website pl);
         ("openingHours", openingHours pl) ].

(** What [JSON.parse] reads back from the [JSON.stringify] of a value, the
    way a place travels from the server to the page: an infinity is written
    as [null], a key holding [undefined] is left out of its object, an
    [undefined] in an array is written as [null]. *)
Fixpoint through_json (v : value) : value :=
  match v with
  | VNum (Inf _) => VNull
  | VArr xs =>
      VArr (map (fun x => if is_undefined x then VNull else through_json x) xs)
  | VObj kvs =>
      VObj ((fix fields (l : list (string * value)) : list (string * value) :=
               match l with
               | [] => []
               | (k, x) :: rest =>
                   if is_undefined x then fields rest
                   else (k, through_json x) :: fields rest
               end) kvs)
  | _ => v
  end.

(** [Number.isFinite] fails on a number. *)
Definition is_infinite (v : value) : bool :=
  match v with
  | VNum (Inf _) => true
  | _ => false
  end.

(** The order of the sort on distances. *)
Definition number_le (x y : number) : Prop :=
  match x, y with
  | Inf true, _ => True
  | _, Inf false => True
  | Fin p, Fin q => (p <= q)%Q
  | _, _ => False
  end.

(** [a] is listed no later than [b]: both have a distance that is a
    number, and that of [a] is no more than that of [b]. *)
Definition no_farther (a b : value) : Prop :=
  match distance_key a, distance_key b with
  | Some x, Some y => number_le x y
  | _, _ => False
  end.

(** *** The vocabulary of the properties *)

(** A computation that leaves the store as it found it. *)
Definition reads_only {A} (m : M A) : Prop :=
  forall s, store (snd (m s)) = store s.

(** The flattened issues have an entry, with at least one issue, under
    the key [k]. *)
Definition names_field (k : string) (d : flattened) : Prop :=
  exists cs, cs <> [] /\ In (k, cs) (fieldErrors d).



(** The address [fetchWeather] asks, given the encoded time zone. *)
Definition weather_url (latitude longitude : value) (tz : string) : string :=
  "https://api.open-meteo.com/v1/forecast?latitude=" ++ ToString latitude
  ++ "&longitude=" ++ ToString longitude
  ++ "&daily=temperature_2m_max,temperature_2m_min,precipitation_sum&timezone="
  ++ tz.

(** The address [fetchPlaces] asks, given the encoded categories and key. *)
Definition places_url (a : PlacesQuery) (cats key : string) : string :=
  "https://api.geoapify.com/v2/places"
  ++ "?categories=" ++ cats
  ++ "&filter=circle:" ++ ToString (q_lon a) ++ "," ++ ToString (q_lat a)
  ++ "," ++ ToString (num (radiusMeters a))
  ++ "&limit=" ++ ToString (num (match limit a with Some l => l | None => 10 end))
  ++ "&apiKey=" ++ key.

(** The name and the distance of the place a run of the callback
    returned. *)
Definition name_and_distance (r : outcome Place * Sys) : option (value * value) :=
  match fst r with
  | Return pl => Some (place_name pl, distanceMeters pl)
  | Throw _ => None
  end.

(** The match [geocodeCity] reads off the parsed answer of the geocoder:
    [data?.results?.[0]]. *)
Definition top_result (data : value) : value :=
  opt_index (opt_prop data "results") 0.

(** The five fields of that match, read off the answer itself. *)
Definition match_of (data : value) : Geo :=
  {| name := prop (top_result data) "name";
     country := prop (top_result data) "country";
     latitude := prop (top_result data) "latitude";
     longitude := prop (top_result data) "longitude";
     timezone := prop (top_result data) "timezone" |}.

(** The state a fetch of [url] leaves. *)
Definition after_fetch (s : Sys) (url : string) : Sys :=
  {| store := store s; log := (log s ++ [Fetch url])%list |}.

(** A step after the geocoding throws: the forecast, the restaurants, the
    attractions or the write, each run in the state the steps before it
    left.  The assembly of the plan between the last fetch and the write
    is an object literal and cannot throw. *)
Inductive step_fails (w : World) (parsed : PlanTripInput) (geo : Geo) (s1 : Sys)
  : error -> Sys -> Prop :=
| weather_fails e s2 :
    fetchWeather w (latitude geo) (longitude geo) (timezone geo) s1 = (Throw e, s2) ->
    step_fails w parsed geo s1 e s2
| restaurants_fail weather s2 e s3 :
    fetchWeather w (latitude geo) (longitude geo) (timezone geo) s1 = (Return weather, s2) ->
    fetchPlaces w (restaurants_query geo) s2 = (Throw e, s3) ->
    step_fails w parsed geo s1 e s3
| attractions_fail weather s2 rs s3 e s4 :
    fetchWeather w (latitude geo) (longitude geo) (timezone geo) s1 = (Return weather, s2) ->
    fetchPlaces w (restaurants_query geo) s2 = (Return rs, s3) ->
    fetchPlaces w (attractions_query geo) s3 = (Throw e, s4) ->
    step_fails w parsed geo s1 e s4
| write_fails weather s2 rs s3 ats s4 e s5 :
    fetchWeather w (latitude geo) (longitude geo) (timezone geo) s1 = (Return weather, s2) ->
    fetchPlaces w (restaurants_query geo) s2 = (Return rs, s3) ->
    fetchPlaces w (attractions_query geo) s3 = (Return ats, s4) ->
    prisma_trip_create w (build_data parsed geo (build_planJson parsed geo weather rs ats)) s4
    = (Throw e, s5) ->
    step_fails w parsed geo s1 e s5.

(** ** Properties *)

(** *** Computations that leave the store alone *)

Lemma reads_only_ret {A} (a : A) : reads_only (ret a).
Proof. intro s. reflexivity. Qed.

Lemma reads_only_throw {A} (e : error) : reads_only (@throw A e).
Proof. intro s. reflexivity. Qed.

Lemma reads_only_emit ev : reads_only (emit ev).
Proof. intro s. reflexivity. Qed.

Lemma reads_only_bind {A B} (m : M A) (k : A -> M B) :
  reads_only m -> (forall a, reads_only (k a)) -> reads_only (bind m k).
Proof.
  intros Hm Hk s. unfold bind.
  specialize (Hm s). destruct (m s) as [[a | e] s1]; simpl in *.
  - rewrite Hk. exact Hm.
  - exact Hm.
Qed.

Lemma reads_only_if {A} (b : bool) (m1 m2 : M A) :
  reads_only m1 -> reads_only m2 -> reads_only (if b then m1 else m2).
Proof. destruct b; auto. Qed.

Create HintDb reads.
#[local] Hint Resolve reads_only_ret reads_only_throw reads_only_emit
  reads_only_bind reads_only_if : reads.

Lemma reads_only_encode x : reads_only (encode x).
Proof. unfold encode. destruct (encodeURIComponent x); auto with reads. Qed.

Lemma reads_only_fetch w url : reads_only (fetch w url).
Proof.
  unfold fetch. apply reads_only_bind; auto with reads.
  intros _. destruct (network w url); auto with reads.
Qed.

Lemma reads_only_resp_json r : reads_only (resp_json r).
Proof. unfold resp_json. destruct (json r); auto with reads. Qed.

Lemma reads_only_member v k : reads_only (member v k).
Proof. unfold member. auto with reads. Qed.

#[local] Hint Resolve reads_only_encode reads_only_fetch reads_only_resp_json
  reads_only_member : reads.

Lemma reads_only_normalize f : reads_only (normalize f).
Proof. unfold normalize. auto with reads. Qed.

Lemma reads_only_mapM {A B} (f : A -> M B) xs :
  (forall x, reads_only (f x)) -> reads_only (mapM f xs).
Proof.
  intros Hf. induction xs as [| x rest IH]; simpl; auto 6 with reads.
Qed.

Lemma reads_only_geocodeCity w d : reads_only (geocodeCity w d).
Proof.
  unfold geocodeCity.
  repeat (apply reads_only_bind; [auto with reads | intros ?]).
  repeat apply reads_only_if; auto with reads.
Qed.

Lemma reads_only_fetchWeather w la lo tz : reads_only (fetchWeather w la lo tz).
Proof.
  unfold fetchWeather.
  repeat (apply reads_only_bind; [auto with reads | intros ?]).
  repeat apply reads_only_if; auto with reads.
Qed.

Lemma reads_only_fetchPlaces w a : reads_only (fetchPlaces w a).
Proof.
  unfold fetchPlaces. apply reads_only_if; auto with reads.
  repeat (apply reads_only_bind; [auto with reads | intros ?]).
  apply reads_only_if; auto with reads.
  apply reads_only_bind; auto with reads. intros data.
  destruct (nullish_or _ _); auto with reads.
  apply reads_only_mapM. apply reads_only_normalize.
Qed.

Lemma reads_only_eq {A} (m : M A) s r s' :
  reads_only m -> m s = (r, s') -> store s' = store s.
Proof. intros H E. specialize (H s). rewrite E in H. exact H. Qed.

(** *** Validation *)

Lemma add_field_names k c m :
  exists cs, cs <> [] /\ In (k, cs) (add_field k c m).
Proof.
  induction m as [| [k' cs'] rest IH]; simpl.
  - exists [c]. split; [discriminate | now left].
  - destruct (k' =? k)%string eqn:E.
    + apply String.eqb_eq in E. subst k'.
      exists (cs' ++ [c])%list. split; [| now left].
      destruct cs'; discriminate.
    + destruct IH as (cs & Hne & Hin). exists cs. split; [exact Hne | now right].
Qed.

Lemma add_field_keeps k cs k' c m :
  cs <> [] -> In (k, cs) m ->
  exists cs', cs' <> [] /\ In (k, cs') (add_field k' c m).
Proof.
  intros Hne. induction m as [| [k0 cs0] rest IH]; simpl; intros Hin.
  - contradiction.
  - destruct (k0 =? k')%string eqn:E.
    + destruct Hin as [Heq | Hin].
      * inversion Heq; subst. exists (cs ++ [c])%list.
        split; [destruct cs; discriminate | now left].
      * exists cs. split; [exact Hne | now right].
    + destruct Hin as [Heq | Hin].
      * exists cs. split; [exact Hne | left; exact Heq].
      * destruct (IH Hin) as (cs' & Hne' & Hin'). exists cs'.
        split; [exact Hne' | now right].
Qed.

Lemma flatten_step_keeps k acc i :
  names_field k acc -> names_field k (flatten_step acc i).
Proof.
  intros (cs & Hne & Hin). unfold flatten_step.
  destruct (path i) as [| k' rest]; simpl.
  - exists cs. auto.
  - eapply add_field_keeps; eauto.
Qed.

Lemma fold_flatten_keeps k issues acc :
  names_field k acc -> names_field k (fold_left flatten_step issues acc).
Proof.
  revert acc. induction issues as [| i rest IH]; simpl; intros acc H.
  - exact H.
  - apply IH. apply flatten_step_keeps. exact H.
Qed.

Lemma flatten_names_field issues k c :
  In (Issue [k] c) issues -> names_field k (flatten issues).
Proof.
  unfold flatten. generalize (Flattened [] []).
  induction issues as [| i rest IH]; simpl; intros acc Hin.
  - contradiction.
  - destruct Hin as [-> | Hin].
    + apply fold_flatten_keeps. unfold flatten_step; simpl.
      apply add_field_names.
    + apply IH. exact Hin.
Qed.

Lemma at_field_in {A} k (r : list issue_code + A) c cs :
  r = inl (c :: cs) -> In (Issue [k] c) (at_field k r).
Proof. intros ->. simpl. now left. Qed.

Lemma string_min_fails n v :
  string_of_at_least n v = false -> exists c cs, string_min n v = inl (c :: cs).
Proof.
  destruct v; simpl; intros H; try (now eexists; eexists).
  apply Nat.leb_gt in H. apply Nat.ltb_lt in H. rewrite H. now eexists; eexists.
Qed.

Lemma number_int_positive_fails v :
  positive_integer v = false -> exists c cs, number_int_positive v = inl (c :: cs).
Proof.
  destruct v; simpl; intros H; try (now eexists; eexists).
  destruct (isInteger n), (gt0 n); simpl in *; try discriminate;
    now eexists; eexists.
Qed.

Lemma vibe_enum_fails v :
  one_of_the_five v = false -> exists c cs, vibe_enum v = inl (c :: cs).
Proof.
  destruct v as [| | b | n | str | xs | kvs]; intros H;
    try (now eexists; eexists).
  unfold vibe_enum.
  destruct (find _ Vibe_values) as [x |] eqn:E; [| now eexists; eexists].
  apply find_some in E. destruct E as [_ E].
  apply String.eqb_eq in E. subst str.
  destruct x; discriminate H.
Qed.

(** An object with a failing key is refused with the issues of its keys. *)
Lemma safeParse_refuses kvs i :
  In i (field_issues kvs) -> safeParse (VObj kvs) = inl (field_issues kvs).
Proof.
  unfold safeParse, field_issues.
  destruct (string_min 1 _), (string_min 2 _), (string_min 8 (own kvs "startDate")),
    (string_min 8 (own kvs "endDate")), (number_int_positive _), (vibe_enum _);
    simpl; try reflexivity.
  contradiction.
Qed.

Ltac failing_key k lem F :=
  let c := fresh "c" in
  let cs := fresh "cs" in
  apply lem in F; destruct F as (c & cs & F); exists c;
  apply (at_field_in k) in F;
  unfold field_issues; rewrite !in_app_iff; tauto.

Lemma requirement_issue kvs k req :
  In (k, req) requirements -> req (own kvs k) = false ->
  exists c, In (Issue [k] c) (field_issues kvs).
Proof.
  unfold requirements. intros Hin. simpl in Hin.
  destruct Hin as [H | [H | [H | [H | [H | [H | []]]]]]];
    inversion H; subst; clear H; intros F.
  - failing_key "userId" string_min_fails F.
  - failing_key "destination" string_min_fails F.
  - failing_key "startDate" string_min_fails F.
  - failing_key "endDate" string_min_fails F.
  - failing_key "budget" number_int_positive_fails F.
  - failing_key "vibe" vibe_enum_fails F.
Qed.

Lemma plan_trip_handler_invalid w body issues s :
  safeParse body = inl issues ->
  plan_trip_handler w body s
  = (Return {| sent_status := 400; sent_body := InvalidInput (flatten issues) |}, s).
Proof.
  intros E. unfold plan_trip_handler, try_catch, plan_trip_try. rewrite E. reflexivity.
Qed.

Lemma fold_flatten_form issues acc :
  (forall i, In i issues -> path i <> []) ->
  formErrors (fold_left flatten_step issues acc) = formErrors acc.
Proof using Type.
  revert acc. induction issues as [| i more IH]; simpl; intros acc H.
  - reflexivity.
  - rewrite IH by auto. unfold flatten_step.
    destruct (path i) eqn:P; [| reflexivity].
    exfalso. apply (H i); auto.
Qed.

Lemma at_field_from {A} k (r : list issue_code + A) i :
  In i (at_field k r) -> path i = [k] /\ exists cs, r = inl cs.
Proof using Type.
  destruct r as [cs | a]; simpl; [| contradiction].
  rewrite in_map_iff. intros (c & <- & _). simpl. eauto.
Qed.

Lemma field_issues_keyed kvs i : In i (field_issues kvs) -> path i <> [].
Proof using Type.
  unfold field_issues. rewrite !in_app_iff.
  intros [H | [H | [H | [H | [H | H]]]]];
    apply at_field_from in H; destruct H as (P & _); rewrite P; discriminate.
Qed.

(** C2: a body on which one of the six rules fails is answered 400 with
    the flattened issues.  For a body that is an object they are all
    field-level: none is at the root, and the failing key has an entry
    with at least one issue.  For a body that is no object the one issue
    is at the root.  The state after is the state before: nothing was
    fetched, logged or written. *)
Theorem invalid_body_is_400_without_effects w body s k req :
  In (k, req) requirements ->
  req (prop body k) = false ->
  exists details,
    plan_trip_handler w body s
    = (Return {| sent_status := 400; sent_body := InvalidInput details |}, s)
    /\ match body with
       | VObj _ => formErrors details = [] /\ names_field k details
       | _ => formErrors details = [invalid_type] /\ fieldErrors details = []
       end.
Proof.
  intros Hin Hreq.
  destruct body as [| | b | n | str | xs | kvs];
    try (exists (flatten [Issue [] invalid_type]); split;
         [ apply plan_trip_handler_invalid; reflexivity
         | split; reflexivity ]).
  simpl in Hreq.
  destruct (requirement_issue kvs k req Hin Hreq) as (c & Hc).
  exists (flatten (field_issues kvs)). split.
  - apply plan_trip_handler_invalid. eapply safeParse_refuses; eauto.
  - split.
    + unfold flatten. rewrite fold_flatten_form; [reflexivity |].
      apply field_issues_keyed.
    + eapply flatten_names_field; eauto.
Qed.

(** *** The places client *)

(** C7: without the key in the environment [fetchPlaces] throws its
    configuration error in the state it was called in: no request has been
    issued. *)
Theorem fetchPlaces_without_key_throws_first w a s :
  GEOAPIFY_API_KEY w = None ->
  fetchPlaces w a s = (Throw (Error "Missing GEOAPIFY_API_KEY in backend/.env"), s).
Proof.
  intros H. unfold fetchPlaces. rewrite H. reflexivity.
Qed.




(** *** The plan-trip handler *)

Lemma bind_returns {A B} (m : M A) (k : A -> M B) s b s' :
  bind m k s = (Return b, s') ->
  exists a s1, m s = (Return a, s1) /\ k a s1 = (Return b, s').
Proof.
  unfold bind. destruct (m s) as [[a | e] s1]; intros H; [eauto | discriminate H].
Qed.

Lemma bind_throws {A B} (m : M A) (k : A -> M B) s e s' :
  bind m k s = (Throw e, s') ->
  m s = (Throw e, s') \/ exists a s1, m s = (Return a, s1) /\ k a s1 = (Throw e, s').
Proof.
  unfold bind. destruct (m s) as [[a | e0] s1]; intros H; [right; eauto | left].
  inversion H. reflexivity.
Qed.

Lemma bind_return_eq {A B} (m : M A) (k : A -> M B) s a s1 :
  m s = (Return a, s1) -> bind m k s = k a s1.
Proof using Type. intros H. unfold bind. rewrite H. reflexivity. Qed.

Lemma bind_throw_eq {A B} (m : M A) (k : A -> M B) s e s1 :
  m s = (Throw e, s1) -> bind m k s = (Throw e, s1).
Proof using Type. intros H. unfold bind. rewrite H. reflexivity. Qed.

Lemma encode_some x q s :
  encodeURIComponent x = Some q -> encode x s = (Return q, s).
Proof using Type. intros H. unfold encode. rewrite H. reflexivity. Qed.

Lemma fetch_answer w url r s :
  network w url = Answer r ->
  fetch w url s
  = (Return r, {| store := store s; log := (log s ++ [Fetch url])%list |}).
Proof using Type. intros H. unfold fetch, bind, emit. rewrite H. reflexivity. Qed.

Lemma resp_json_value r v s : json r = inr v -> resp_json r s = (Return v, s).
Proof using Type. intros H. unfold resp_json. rewrite H. reflexivity. Qed.

Lemma encode_returns x s q s' :
  encode x s = (Return q, s') -> encodeURIComponent x = Some q /\ s' = s.
Proof.
  unfold encode. destruct (encodeURIComponent x); intros H; inversion H; auto.
Qed.

Lemma fetch_returns w url s r s' :
  fetch w url s = (Return r, s') ->
  s' = {| store := store s; log := (log s ++ [Fetch url])%list |}.
Proof.
  unfold fetch, bind, emit.
  destruct (network w url); intros H; inversion H; reflexivity.
Qed.

Lemma resp_json_returns r s v s' : resp_json r s = (Return v, s') -> s' = s.
Proof.
  unfold resp_json. destruct (json r); intros H; inversion H; reflexivity.
Qed.

Lemma geocodeCity_returns w d s r s1 :
  geocodeCity w d s = (Return r, s1) ->
  exists q, encodeURIComponent d = Some q
            /\ s1 = {| store := store s; log := (log s ++ [Fetch (geocode_url q)])%list |}.
Proof.
  intros H. unfold geocodeCity in H.
  apply bind_returns in H as (q & s0 & Hq & H).
  apply encode_returns in Hq as [Eq ->].
  apply bind_returns in H as (resp & s2 & Hf & H).
  apply fetch_returns in Hf as ->.
  destruct (negb (ok resp)); [discriminate H |].
  apply bind_returns in H as (data & s3 & Hj & H).
  apply resp_json_returns in Hj as ->.
  exists q. split; [exact Eq |].
  destruct (negb (truthy _)); inversion H; reflexivity.
Qed.

Lemma prisma_trip_create_throws w data s e s' :
  prisma_trip_create w data s = (Throw e, s') -> store s' = store s.
Proof.
  unfold prisma_trip_create, bind, emit.
  destruct (write_fault w data); [intros H; inversion H; reflexivity |].
  cbv beta iota zeta. cbn [store log].
  destruct (negb (has_user (store s) (data_user data)));
    [intros H; inversion H; reflexivity |].
  destruct (find_trip (store s) (new_id w)); intros H; inversion H; reflexivity.
Qed.

Lemma prisma_trip_create_returns w data s t s' :
  prisma_trip_create w data s = (Return t, s') ->
  t = {| id := new_id w; createdAt := now w; columns := data |}
  /\ has_user (store s) (data_user data) = true
  /\ find_trip (store s) (new_id w) = None
  /\ s' = {| store := insert_trip (store s) t; log := (log s ++ [TripCreate data])%list |}.
Proof.
  unfold prisma_trip_create, bind, emit.
  destruct (write_fault w data); [intros H; discriminate H |].
  cbv beta iota zeta. cbn [store log].
  destruct (has_user (store s) (data_user data)); [| intros H; discriminate H].
  destruct (find_trip (store s) (new_id w)); intros H; inversion H; subst.
  auto.
Qed.

Lemma step_fails_store w parsed geo s1 e s' :
  step_fails w parsed geo s1 e s' -> store s' = store s1.
Proof.
  destruct 1;
    repeat match goal with
    | H : fetchWeather _ _ _ _ _ = _ |- _ =>
        apply (reads_only_eq _ _ _ _ (reads_only_fetchWeather _ _ _ _)) in H
    | H : fetchPlaces _ _ _ = _ |- _ =>
        apply (reads_only_eq _ _ _ _ (reads_only_fetchPlaces _ _)) in H
    | H : prisma_trip_create _ _ _ = _ |- _ =>
        apply prisma_trip_create_throws in H
    end; congruence.
Qed.

Lemma step_fails_throws w body parsed geo s s1 e s' :
  safeParse body = inr parsed ->
  geocodeCity w (destination parsed) s = (Return (Some geo), s1) ->
  step_fails w parsed geo s1 e s' ->
  plan_trip_try w body s = (Throw e, s').
Proof.
  intros P G F. unfold plan_trip_try. rewrite P. unfold bind at 1. rewrite G.
  destruct F as [e s2 W | wx s2 e s3 W R | wx s2 rs s3 e s4 W R A
                | wx s2 rs s3 ats s4 e s5 W R A C].
  - unfold bind. rewrite W. reflexivity.
  - unfold bind. rewrite W, R. reflexivity.
  - unfold bind. rewrite W, R, A. reflexivity.
  - unfold bind. rewrite W, R, A, C. reflexivity.
Qed.

(** C3: on a valid request whose destination resolved, a failure of the
    forecast, of either places call or of the write is answered with the
    500 of the [catch], and the store after the request is the store
    before it. *)
Theorem failed_step_is_500_and_nothing_is_stored w body parsed geo s s1 e s' :
  safeParse body = inr parsed ->
  geocodeCity w (destination parsed) s = (Return (Some geo), s1) ->
  step_fails w parsed geo s1 e s' ->
  exists s'',
    plan_trip_handler w body s
    = (Return {| sent_status := 500;
                 sent_body := ErrorMessage "Server error"
                   (if (message e =? EmptyString)%string then "Unknown error"
                    else message e) |}, s'')
    /\ store s'' = store s.
Proof.
  intros P G F.
  exists {| store := store s'; log := (log s' ++ [ConsoleError e])%list |}.
  split.
  - unfold plan_trip_handler, try_catch.
    rewrite (step_fails_throws _ _ _ _ _ _ _ _ P G F). reflexivity.
  - simpl. rewrite (step_fails_store _ _ _ _ _ _ F).
    exact (reads_only_eq _ _ _ _ (reads_only_geocodeCity _ _) G).
Qed.

(** C4: on a valid request for which the geocoder has no match the answer
    is 404 with a message that quotes the destination asked for; the one
    effect of the request is the geocoding fetch, and the store is as
    before. *)
Theorem unresolved_destination_is_404 w body parsed s s1 :
  safeParse body = inr parsed ->
  geocodeCity w (destination parsed) s = (Return None, s1) ->
  plan_trip_handler w body s
  = (Return {| sent_status := 404;
               sent_body := ErrorMessage "Destination not found"
                 ("Could not find coordinates for " ++ dquote ++ destination parsed
                  ++ dquote ++ ". Try a bigger city name.") |}, s1)
  /\ store s1 = store s
  /\ exists q, log s1 = (log s ++ [Fetch (geocode_url q)])%list.
Proof.
  intros P G. split; [| split].
  - unfold plan_trip_handler, try_catch, plan_trip_try. rewrite P.
    unfold bind. rewrite G. reflexivity.
  - exact (reads_only_eq _ _ _ _ (reads_only_geocodeCity _ _) G).
  - destruct (geocodeCity_returns _ _ _ _ _ G) as (q & _ & ->). exists q. reflexivity.
Qed.

Lemma geocodeCity_match w d q resp data s :
  encodeURIComponent d = Some q ->
  network w (geocode_url q) = Answer resp ->
  ok resp = true ->
  json resp = inr data ->
  truthy (top_result data) = true ->
  geocodeCity w d s
  = (Return (Some (match_of data)), after_fetch s (geocode_url q)).
Proof using Type.
  intros E N K J T. unfold geocodeCity.
  rewrite (bind_return_eq _ _ _ _ _ (encode_some _ _ _ E)). cbv zeta.
  rewrite (bind_return_eq _ _ _ _ _ (fetch_answer _ _ _ _ N)).
  rewrite K. cbn [negb].
  rewrite (bind_return_eq _ _ _ _ _ (resp_json_value _ _ _ J)).
  unfold top_result in T. rewrite T. reflexivity.
Qed.


(** C6: on a valid request for which the geocoder answers with a match,
    and whose forecast, places calls and write succeed, the answer is 201
    with the row written; the destination of that row is the name in the
    answer of the geocoder, while the text of the request is kept as the
    query of the plan. *)
Theorem success_is_201_with_resolved_name
        w body parsed q resp data weather rs ats trip s s2 s3 s4 s5 :
  safeParse body = inr parsed ->
  encodeURIComponent (destination parsed) = Some q ->
  network w (geocode_url q) = Answer resp ->
  ok resp = true ->
  json resp = inr data ->
  truthy (top_result data) = true ->
  fetchWeather w (prop (top_result data) "latitude") (prop (top_result data) "longitude")
    (prop (top_result data) "timezone") (after_fetch s (geocode_url q))
  = (Return weather, s2) ->
  fetchPlaces w (restaurants_query (match_of data)) s2 = (Return rs, s3) ->
  fetchPlaces w (attractions_query (match_of data)) s3 = (Return ats, s4) ->
  prisma_trip_create w
    (build_data parsed (match_of data)
       (build_planJson parsed (match_of data) weather rs ats)) s4
  = (Return trip, s5) ->
  plan_trip_handler w body s
  = (Return {| sent_status := 201; sent_body := TripRecord trip |}, s5)
  /\ data_destination (columns trip) = prop (top_result data) "name"
  /\ query (plan_destination (data_planJson (columns trip))) = destination parsed
  /\ In trip (trips (store s5)).
Proof.
  intros P E N K J T W R A C.
  pose proof (geocodeCity_match w _ _ _ _ s E N K J T) as G.
  split; [| split; [| split]].
  - unfold plan_trip_handler, try_catch, plan_trip_try. rewrite P.
    rewrite (bind_return_eq _ _ _ _ _ G).
    change (latitude (match_of data)) with (prop (top_result data) "latitude").
    change (longitude (match_of data)) with (prop (top_result data) "longitude").
    change (timezone (match_of data)) with (prop (top_result data) "timezone").
    unfold bind. rewrite W, R, A, C. reflexivity.
  - apply prisma_trip_create_returns in C. destruct C as (-> & _). reflexivity.
  - apply prisma_trip_create_returns in C. destruct C as (-> & _). reflexivity.
  - apply prisma_trip_create_returns in C. destruct C as (_ & _ & _ & ->).
    simpl. apply in_or_app. right. now left.
Qed.

(** What a 201 tells: the body was valid, every step returned, and the
    row sent is the row the write appended under an id that was free. *)
Lemma plan_trip_created w body s r s' :
  plan_trip_handler w body s = (Return r, s') ->
  sent_status r = 201 ->
  exists parsed geo weather rs ats t,
    safeParse body = inr parsed
    /\ sent_body r = TripRecord t
    /\ columns t = build_data parsed geo (build_planJson parsed geo weather rs ats)
    /\ find_trip (store s) (id t) = None
    /\ store s' = insert_trip (store s) t.
Proof.
  intros H St. unfold plan_trip_handler, try_catch in H.
  destruct (plan_trip_try w body s) as [[r0 | e] s0] eqn:E.
  2:{ unfold bind, emit, ret in H. inversion H; subst. discriminate St. }
  inversion H; subst r0 s0; clear H.
  unfold plan_trip_try in E.
  destruct (safeParse body) as [issues | parsed] eqn:P.
  { inversion E; subst. discriminate St. }
  apply bind_returns in E as ([geo |] & s1 & G & E).
  2:{ inversion E; subst. discriminate St. }
  apply bind_returns in E as (weather & s2 & W & E).
  apply bind_returns in E as (rs & s3 & R & E).
  apply bind_returns in E as (ats & s4 & A & E).
  apply bind_returns in E as (t & s5 & C & E).
  inversion E; subst r s5; clear E.
  apply (reads_only_eq _ _ _ _ (reads_only_geocodeCity _ _)) in G.
  apply (reads_only_eq _ _ _ _ (reads_only_fetchWeather _ _ _ _)) in W.
  apply (reads_only_eq _ _ _ _ (reads_only_fetchPlaces _ _)) in R.
  apply (reads_only_eq _ _ _ _ (reads_only_fetchPlaces _ _)) in A.
  assert (S4 : store s4 = store s) by congruence.
  apply prisma_trip_create_returns in C as (Ht & _ & Hfree & ->).
  exists parsed, geo, weather, rs, ats, t.
  rewrite S4 in *. subst t. simpl in *. auto.
Qed.

(** C9: the same body submitted twice, both answered 201, leaves two rows
    more in the store, the two that were sent back, and they are two rows:
    their ids differ.  Nothing in the handler looks for an earlier row. *)
Theorem planning_twice_creates_two_rows w1 w2 body s0 r1 s1 r2 s2 :
  plan_trip_handler w1 body s0 = (Return r1, s1) ->
  sent_status r1 = 201 ->
  plan_trip_handler w2 body s1 = (Return r2, s2) ->
  sent_status r2 = 201 ->
  exists t1 t2,
    sent_body r1 = TripRecord t1
    /\ sent_body r2 = TripRecord t2
    /\ trips (store s2) = (trips (store s0) ++ [t1; t2])%list
    /\ id t1 <> id t2.
Proof.
  intros H1 St1 H2 St2.
  destruct (plan_trip_created _ _ _ _ _ H1 St1)
    as (p1 & g1 & x1 & rs1 & as1 & t1 & _ & B1 & _ & _ & S1).
  destruct (plan_trip_created _ _ _ _ _ H2 St2)
    as (p2 & g2 & x2 & rs2 & as2 & t2 & _ & B2 & _ & F2 & S2).
  exists t1, t2. repeat split; try assumption.
  - rewrite S2, S1. simpl. rewrite <- app_assoc. reflexivity.
  - intros Heq. unfold find_trip in F2. rewrite S1 in F2. simpl in F2.
    assert (In t1 (trips (store s0) ++ [t1])) as Hin
        by (apply in_or_app; right; now left).
    pose proof (find_none _ _ F2 t1 Hin) as Hne. cbv beta in Hne.
    rewrite Heq, String.eqb_refl in Hne. discriminate Hne.
Qed.


(** *** The read of one trip *)

(** C5, at the read of one trip: when the lookup rejects, the handler
    rejects with it and sends nothing; the 500 with the message of the
    error, which the plan-trip handler sends from its [catch], is not
    sent here. *)
Theorem get_trip_rejects_when_lookup_fails w i s e :
  read_fault w = Some e ->
  get_trip_handler w i s
  = (Throw e, {| store := store s; log := (log s ++ [TripFindUnique i])%list |}).
Proof.
  intros H. unfold get_trip_handler, prisma_trip_findUnique, bind, emit.
  rewrite H. reflexivity.
Qed.

(** *** Routing *)

(** C1: a GET of [/api/trips] with a [userId] in its query matches none of
    the three routes of the application, whoever the user: the server has
    no handler that lists trips. *)
Theorem list_trips_is_not_routed w u body :
  app w {| method := GET; url_path := ["api"; "trips"];
           url_query := [("userId", u)]; req_body := body |} = None.
Proof. reflexivity. Qed.

(** ** Further properties of the server *)

(** *** Validation accepts exactly what the rules allow *)

Lemma string_min_accepts n v :
  string_of_at_least n v = true <-> exists s, string_min n v = inr s.
Proof using Type.
  destruct v as [| | b | x | str | xs | kvs]; simpl;
    try (split; [discriminate | intros (s & H); discriminate H]).
  rewrite Nat.ltb_antisym. destruct (n <=? String.length str)%nat; simpl.
  - split; eauto.
  - split; [discriminate | intros (s & H); discriminate H].
Qed.

Lemma number_int_positive_accepts v :
  positive_integer v = true <-> exists z, number_int_positive v = inr z.
Proof using Type.
  destruct v as [| | b | x | str | xs | kvs]; simpl;
    try (split; [discriminate | intros (s & H); discriminate H]).
  destruct (isInteger x), (gt0 x); simpl;
    (split; [first [discriminate | eauto] | intros (z & H); first [discriminate H | reflexivity]]).
Qed.

Lemma vibe_enum_accepts v :
  one_of_the_five v = true <-> exists x, vibe_enum v = inr x.
Proof using Type.
  split.
  - destruct v as [| | b | n | str | xs | kvs]; intros H; try discriminate H.
    unfold one_of_the_five in H. apply existsb_exists in H.
    destruct H as (nm & Hin & E). apply String.eqb_eq in E. subst nm.
    simpl in Hin.
    destruct Hin as [<- | [<- | [<- | [<- | [<- | []]]]]]; (eexists; reflexivity).
  - intros (x & H).
    destruct v as [| | b | n | str | xs | kvs]; try discriminate H.
    unfold vibe_enum in H.
    destruct (find _ Vibe_values) as [y |] eqn:E; [| discriminate H].
    apply find_some in E. destruct E as [_ E].
    apply String.eqb_eq in E. subst str. destruct y; reflexivity.
Qed.

Lemma vibe_enum_inr v x : vibe_enum v = inr x -> v = VStr (Vibe_to_string x).
Proof using Type.
  destruct v as [| | b | n | str | xs | kvs]; intros H; try discriminate H.
  unfold vibe_enum in H.
  destruct (find _ Vibe_values) as [y |] eqn:E; [| discriminate H].
  inversion H; subst y. apply find_some in E. destruct E as [_ E].
  apply String.eqb_eq in E. now subst str.
Qed.

Lemma string_min_inr n v s :
  string_min n v = inr s -> v = VStr s /\ (n <= String.length s)%nat.
Proof using Type.
  destruct v as [| | b | x | str | xs | kvs]; simpl; intros H; try discriminate H.
  destruct (String.length str <? n)%nat eqn:E; inversion H; subst.
  apply Nat.ltb_ge in E. auto.
Qed.

Lemma number_int_positive_inr v z :
  number_int_positive v = inr z ->
  exists q, v = VNum (Fin q) /\ q == inject_Z z /\ 0 < z.
Proof using Type.
  destruct v as [| | b | x | str | xs | kvs]; simpl; intros H; try discriminate H.
  destruct (isInteger x) eqn:I, (gt0 x) eqn:G; simpl in H; try discriminate H.
  inversion H; subst z; clear H.
  destruct x as [q | neg]; [| discriminate I].
  simpl in *. exists q. split; [reflexivity |].
  apply Z.eqb_eq in I. apply Z.ltb_lt in G.
  pose proof (Z_div_mod_eq_full (Qnum q) (Zpos (Qden q))) as D.
  rewrite I, Z.add_0_r in D.
  split.
  - unfold Qeq. simpl. rewrite Z.mul_1_r. rewrite D at 1. apply Z.mul_comm.
  - assert (0 < Zpos (Qden q)) by reflexivity. nia.
Qed.

(** X1: the schema accepts only what the six rules allow, and all of it
    up to the safe integers: a body it accepts meets each of the rules,
    and a body that meets each of them, with a budget that is not above
    [Number.MAX_SAFE_INTEGER], is accepted.  A body that is no object
    meets none of the rules. *)
Theorem safeParse_accepts_what_the_rules_allow body :
  ((exists parsed, safeParse body = inr parsed) ->
   forall k req, In (k, req) requirements -> req (prop body k) = true)
  /\ ((forall k req, In (k, req) requirements -> req (prop body k) = true) ->
      above_safe_integers (prop body "budget") = false ->
      exists parsed, safeParse body = inr parsed).
Proof using Type.
  clear encodeURIComponent Date_parse.
  split.
  - intros (p & H) k req Hin.
    destruct body as [| | b | n | str | xs | kvs]; try discriminate H.
    simpl. unfold safeParse in H.
    destruct (string_min 1 (own kvs "userId")) eqn:U; [discriminate H |].
    destruct (string_min 2 (own kvs "destination")) eqn:D; [discriminate H |].
    destruct (string_min 8 (own kvs "startDate")) eqn:S; [discriminate H |].
    destruct (string_min 8 (own kvs "endDate")) eqn:E; [discriminate H |].
    destruct (number_int_positive (own kvs "budget")) eqn:B; [discriminate H |].
    destruct (vibe_enum (own kvs "vibe")) eqn:V; [discriminate H |].
    unfold requirements in Hin. simpl in Hin.
    destruct Hin as [Hk | [Hk | [Hk | [Hk | [Hk | [Hk | []]]]]]];
      inversion Hk; subst; clear Hk;
      first [ apply string_min_accepts | apply number_int_positive_accepts
            | apply vibe_enum_accepts ]; eauto.
  - intros H _.
    destruct body as [| | b | n | str | xs | kvs];
      try (specialize (H "userId" (string_of_at_least 1) (or_introl eq_refl));
           discriminate H).
    simpl in H.
    assert (U := H "userId" (string_of_at_least 1)).
    assert (D := H "destination" (string_of_at_least 2)).
    assert (S := H "startDate" (string_of_at_least 8)).
    assert (E := H "endDate" (string_of_at_least 8)).
    assert (B := H "budget" positive_integer).
    assert (V := H "vibe" one_of_the_five).
    unfold requirements in U, D, S, E, B, V. simpl in U, D, S, E, B, V.
    apply string_min_accepts in U; [| tauto]. destruct U as (u & U).
    apply string_min_accepts in D; [| tauto]. destruct D as (d & D).
    apply string_min_accepts in S; [| tauto]. destruct S as (sd & S).
    apply string_min_accepts in E; [| tauto]. destruct E as (ed & E).
    apply number_int_positive_accepts in B; [| tauto]. destruct B as (z & B).
    apply vibe_enum_accepts in V; [| tauto]. destruct V as (x & V).
    unfold safeParse. rewrite U, D, S, E, B, V. eauto.
Qed.

(** X2: what validation hands to the handler is what the body holds: the
    four strings and the vibe are the strings of the body, of the lengths
    the rules ask; the budget is the integer the number of the body
    denotes, and it is positive. *)
Theorem parsed_data_are_the_fields_of_the_body kvs parsed :
  safeParse (VObj kvs) = inr parsed ->
  own kvs "userId" = VStr (userId parsed)
  /\ own kvs "destination" = VStr (destination parsed)
  /\ own kvs "startDate" = VStr (startDate parsed)
  /\ own kvs "endDate" = VStr (endDate parsed)
  /\ own kvs "vibe" = VStr (Vibe_to_string (vibe parsed))
  /\ (exists q, own kvs "budget" = VNum (Fin q) /\ q == inject_Z (budget parsed))
  /\ 0 < budget parsed
  /\ (1 <= String.length (userId parsed))%nat
  /\ (2 <= String.length (destination parsed))%nat
  /\ (8 <= String.length (startDate parsed))%nat
  /\ (8 <= String.length (endDate parsed))%nat.
Proof using Type.
  clear encodeURIComponent Date_parse.
  intros H. unfold safeParse in H.
  destruct (string_min 1 (own kvs "userId")) eqn:U; [discriminate H |].
  destruct (string_min 2 (own kvs "destination")) eqn:D; [discriminate H |].
  destruct (string_min 8 (own kvs "startDate")) eqn:S; [discriminate H |].
  destruct (string_min 8 (own kvs "endDate")) eqn:E; [discriminate H |].
  destruct (number_int_positive (own kvs "budget")) eqn:B; [discriminate H |].
  destruct (vibe_enum (own kvs "vibe")) eqn:V; [discriminate H |].
  inversion H; subst parsed; clear H. simpl.
  apply string_min_inr in U, D, S, E.
  apply number_int_positive_inr in B. destruct B as (q & Bq & Bz & Bp).
  apply vibe_enum_inr in V.
  intuition eauto.
Qed.

(** *** The issues that are reported *)

Lemma add_field_from k cs k' c m :
  In (k, cs) (add_field k' c m) -> k = k' \/ exists cs', In (k, cs') m.
Proof using Type.
  induction m as [| [k0 cs0] rest IH]; simpl.
  - intros [H | []]. inversion H. now left.
  - destruct (k0 =? k')%string eqn:E.
    + intros [H | H].
      * inversion H; subst. apply String.eqb_eq in E. now left.
      * right. exists cs. now right.
    + intros [H | H].
      * right. exists cs. now left.
      * destruct (IH H) as [-> | (cs' & Hin)]; [now left |].
        right. exists cs'. now right.
Qed.

Lemma fold_flatten_from issues acc k cs :
  In (k, cs) (fieldErrors (fold_left flatten_step issues acc)) ->
  (exists cs', In (k, cs') (fieldErrors acc))
  \/ exists i rest, In i issues /\ path i = k :: rest.
Proof using Type.
  revert acc. induction issues as [| i more IH]; simpl; intros acc H.
  - left. eauto.
  - destruct (IH _ H) as [(cs' & Hin) | (j & rest & Hj & Hp)].
    + unfold flatten_step in Hin. destruct (path i) as [| k' rest] eqn:P; simpl in Hin.
      * left. eauto.
      * destruct (add_field_from _ _ _ _ _ Hin) as [-> | Hacc].
        -- right. exists i, rest. auto.
        -- left. exact Hacc.
    + right. exists j, rest. auto.
Qed.

Lemma field_issues_from kvs i :
  In i (field_issues kvs) ->
  exists k req, path i = [k] /\ In (k, req) requirements /\ req (own kvs k) = false.
Proof using Type.
  unfold field_issues. rewrite !in_app_iff.
  intros [H | [H | [H | [H | [H | H]]]]];
    apply at_field_from in H; destruct H as (P & cs & F).
  - exists "userId", (string_of_at_least 1). split; [exact P |].
    split; [simpl; tauto |].
    destruct (string_of_at_least 1 _) eqn:R; [| reflexivity].
    apply string_min_accepts in R. destruct R as (x & R). congruence.
  - exists "destination", (string_of_at_least 2). split; [exact P |].
    split; [simpl; tauto |].
    destruct (string_of_at_least 2 _) eqn:R; [| reflexivity].
    apply string_min_accepts in R. destruct R as (x & R). congruence.
  - exists "startDate", (string_of_at_least 8). split; [exact P |].
    split; [simpl; tauto |].
    destruct (string_of_at_least 8 _) eqn:R; [| reflexivity].
    apply string_min_accepts in R. destruct R as (x & R). congruence.
  - exists "endDate", (string_of_at_least 8). split; [exact P |].
    split; [simpl; tauto |].
    destruct (string_of_at_least 8 _) eqn:R; [| reflexivity].
    apply string_min_accepts in R. destruct R as (x & R). congruence.
  - exists "budget", positive_integer. split; [exact P |].
    split; [simpl; tauto |].
    destruct (positive_integer _) eqn:R; [| reflexivity].
    apply number_int_positive_accepts in R. destruct R as (x & R). congruence.
  - exists "vibe", one_of_the_five. split; [exact P |].
    split; [simpl; tauto |].
    destruct (one_of_the_five _) eqn:R; [| reflexivity].
    apply vibe_enum_accepts in R. destruct R as (x & R). congruence.
Qed.

Lemma safeParse_object_issues kvs issues :
  safeParse (VObj kvs) = inl issues -> issues = field_issues kvs.
Proof using Type.
  unfold safeParse.
  destruct (string_min 1 (own kvs "userId")),
    (string_min 2 (own kvs "destination")),
    (string_min 8 (own kvs "startDate")),
    (string_min 8 (own kvs "endDate")),
    (number_int_positive (own kvs "budget")),
    (vibe_enum (own kvs "vibe"));
    intros H; inversion H; reflexivity.
Qed.

(** *** What the plan-trip handler can answer *)

(** The three ways in which the body of the [try] returns. *)
Lemma plan_trip_try_returns w body s r s' :
  plan_trip_try w body s = (Return r, s') ->
  (exists issues,
      safeParse body = inl issues
      /\ r = {| sent_status := 400; sent_body := InvalidInput (flatten issues) |}
      /\ s' = s)
  \/ (exists parsed,
         safeParse body = inr parsed
         /\ geocodeCity w (destination parsed) s = (Return None, s')
         /\ r = {| sent_status := 404;
                   sent_body := ErrorMessage "Destination not found"
                                  (not_found_message (destination parsed)) |})
  \/ (exists parsed geo weather rs ats t s1 s2 s3 s4,
         safeParse body = inr parsed
         /\ geocodeCity w (destination parsed) s = (Return (Some geo), s1)
         /\ fetchWeather w (latitude geo) (longitude geo) (timezone geo) s1
            = (Return weather, s2)
         /\ fetchPlaces w (restaurants_query geo) s2 = (Return rs, s3)
         /\ fetchPlaces w (attractions_query geo) s3 = (Return ats, s4)
         /\ prisma_trip_create w
              (build_data parsed geo (build_planJson parsed geo weather rs ats)) s4
            = (Return t, s')
         /\ r = {| sent_status := 201; sent_body := TripRecord t |}).
Proof using Type.
  intros E. unfold plan_trip_try in E.
  destruct (safeParse body) as [issues | parsed] eqn:P.
  { left. exists issues. inversion E; subst. auto. }
  right.
  apply bind_returns in E as ([geo |] & s1 & G & E).
  2:{ left. exists parsed. inversion E; subst. auto. }
  right.
  apply bind_returns in E as (weather & s2 & W & E).
  apply bind_returns in E as (rs & s3 & R & E).
  apply bind_returns in E as (ats & s4 & A & E).
  apply bind_returns in E as (t & s5 & C & E).
  inversion E; subst r s5; clear E.
  exists parsed, geo, weather, rs, ats, t, s1, s2, s3, s4. auto 10.
Qed.

(** A throw inside the [try] happens before anything is stored. *)
Lemma plan_trip_try_throws w body s e s' :
  plan_trip_try w body s = (Throw e, s') -> store s' = store s.
Proof using Type.
  intros E. unfold plan_trip_try in E.
  destruct (safeParse body) as [issues | parsed]; [discriminate E |].
  apply bind_throws in E as [G | ([geo |] & s1 & G & E)];
    [ exact (reads_only_eq _ _ _ _ (reads_only_geocodeCity _ _) G)
    | | discriminate E ].
  apply (reads_only_eq _ _ _ _ (reads_only_geocodeCity _ _)) in G.
  apply bind_throws in E as [W | (weather & s2 & W & E)];
    apply (reads_only_eq _ _ _ _ (reads_only_fetchWeather _ _ _ _)) in W;
    [congruence |].
  apply bind_throws in E as [R | (rs & s3 & R & E)];
    apply (reads_only_eq _ _ _ _ (reads_only_fetchPlaces _ _)) in R;
    [congruence |].
  apply bind_throws in E as [A | (ats & s4 & A & E)];
    apply (reads_only_eq _ _ _ _ (reads_only_fetchPlaces _ _)) in A;
    [congruence |].
  apply bind_throws in E as [C | (t & s5 & C & E)]; [| discriminate E].
  apply prisma_trip_create_throws in C. congruence.
Qed.

(** The handler as a whole: it returns what the [try] returned, or the
    reply of the [catch]. *)
Lemma plan_trip_handler_cases w body s :
  (exists r s',
      plan_trip_try w body s = (Return r, s')
      /\ plan_trip_handler w body s = (Return r, s'))
  \/ (exists e s0,
         plan_trip_try w body s = (Throw e, s0)
         /\ plan_trip_handler w body s
            = (Return (server_error e),
               {| store := store s0; log := (log s0 ++ [ConsoleError e])%list |})).
Proof using Type.
  unfold plan_trip_handler, try_catch.
  destruct (plan_trip_try w body s) as [[r | e] s0].
  - left. eauto.
  - right. exists e, s0. split; reflexivity.
Qed.

(** X3: the details of a 400 blame only keys that broke their rule, and
    for a body that is an object none of the issues is at the root.  The
    budget is blamed for breaking its rule when it is not a number above
    [Number.MAX_SAFE_INTEGER]; whether such a number is an integer the
    rule leaves open. *)
Theorem details_blame_only_failing_keys w kvs s st d s' :
  plan_trip_handler w (VObj kvs) s
  = (Return {| sent_status := st; sent_body := InvalidInput d |}, s') ->
  formErrors d = []
  /\ forall k, names_field k d ->
               (k = "budget" -> above_safe_integers (own kvs "budget") = false) ->
               exists req, In (k, req) requirements /\ req (own kvs k) = false.
Proof using Type.
  intros H.
  assert (D : d = flatten (field_issues kvs)).
  { destruct (plan_trip_handler_cases w (VObj kvs) s)
      as [(r & s1 & T & Hh) | (e & s0 & T & Hh)];
      rewrite Hh in H; inversion H; subst; clear H.
    apply plan_trip_try_returns in T.
    destruct T as [(issues & P & Hr & _) | [(p & _ & _ & Hr) | T]].
    - inversion Hr; subst. apply safeParse_object_issues in P. now subst.
    - discriminate Hr.
    - destruct T as (p & g & x & rs & ats & t & s2 & s3 & s4 & s5 & T).
      destruct T as (_ & _ & _ & _ & _ & _ & Hr). discriminate Hr. }
  subst d. split.
  - unfold flatten. rewrite fold_flatten_form; [reflexivity |].
    intros i Hi. apply field_issues_from in Hi.
    destruct Hi as (k & req & P & _). rewrite P. discriminate.
  - intros k (cs & _ & Hin) _. unfold flatten in Hin.
    apply fold_flatten_from in Hin.
    destruct Hin as [(cs' & []) | (i & rest & Hi & P)].
    apply field_issues_from in Hi. destruct Hi as (k' & req & P' & Hreq & F).
    rewrite P in P'. inversion P'; subst. eauto.
Qed.

(** X4: the handler always answers, and with one of four statuses; only a
    201 changes the store, and then by one row appended to the trips; the
    users are never touched. *)
Theorem plan_trip_handler_always_answers w body s :
  exists r s',
    plan_trip_handler w body s = (Return r, s')
    /\ In (sent_status r) [201; 400; 404; 500]
    /\ users (store s') = users (store s)
    /\ (sent_status r <> 201 -> store s' = store s)
    /\ (sent_status r = 201 ->
        exists t, sent_body r = TripRecord t
                  /\ trips (store s') = (trips (store s) ++ [t])%list).
Proof using Type.
  clear trip_json ToNumber JSON_stringify.
  destruct (plan_trip_handler_cases w body s)
    as [(r & s1 & T & Hh) | (e & s0 & T & Hh)].
  - exists r, s1. split; [exact Hh |].
    apply plan_trip_try_returns in T.
    destruct T as [(issues & P & -> & ->) | [(p & P & G & ->) | T]].
    + split; [simpl; tauto |]. split; [reflexivity |].
      split; [reflexivity | intros St; discriminate St].
    + apply (reads_only_eq _ _ _ _ (reads_only_geocodeCity _ _)) in G.
      split; [simpl; tauto |]. split; [now rewrite G |].
      split; [intros _; exact G | intros St; discriminate St].
    + destruct T as (p & g & x & rs & ats & t & s2 & s3 & s4 & s5 & T).
      destruct T as (P & G & W & R & A & C & ->).
      apply (reads_only_eq _ _ _ _ (reads_only_geocodeCity _ _)) in G.
      apply (reads_only_eq _ _ _ _ (reads_only_fetchWeather _ _ _ _)) in W.
      apply (reads_only_eq _ _ _ _ (reads_only_fetchPlaces _ _)) in R.
      apply (reads_only_eq _ _ _ _ (reads_only_fetchPlaces _ _)) in A.
      assert (S5 : store s5 = store s) by congruence.
      apply prisma_trip_create_returns in C as (_ & _ & _ & ->).
      split; [simpl; tauto |]. split; [simpl; now rewrite S5 |].
      split; [intros St; contradiction St; reflexivity |].
      intros _. exists t. split; [reflexivity | simpl; now rewrite S5].
  - eexists _, _. split; [exact Hh |].
    apply plan_trip_try_throws in T.
    split; [simpl; tauto |]. split; [simpl; now rewrite T |].
    split; [intros _; simpl; exact T | intros St; discriminate St].
Qed.

Lemma not_found_message_has_text d : not_found_message d <> EmptyString.
Proof using Type. unfold not_found_message. simpl. discriminate. Qed.

Lemma server_error_has_text e :
  (if (message e =? EmptyString)%string then "Unknown error" else message e)
  <> EmptyString.
Proof using Type.
  destruct (message e =? EmptyString)%string eqn:E; [discriminate |].
  apply String.eqb_neq in E. exact E.
Qed.

(** Whatever the handler answers, the store after it is the store before
    it or that store with one row more. *)
Lemma plan_trip_handler_store w body s r s' :
  plan_trip_handler w body s = (Return r, s') ->
  store s' = store s
  \/ exists t, find_trip (store s) (id t) = None
               /\ store s' = insert_trip (store s) t.
Proof using Type.
  intros H.
  destruct (plan_trip_handler_cases w body s)
    as [(r0 & s1 & T & Hh) | (e & s0 & T & Hh)];
    rewrite Hh in H; inversion H; subst; clear H.
  - apply plan_trip_try_returns in T.
    destruct T as [(issues & _ & _ & ->) | [(p & _ & G & _) | T]].
    + now left.
    + left. exact (reads_only_eq _ _ _ _ (reads_only_geocodeCity _ _) G).
    + destruct T as (p & g & x & rs & ats & t & s2 & s3 & s4 & s5 & T).
      destruct T as (_ & G & W & R & A & C & _).
      apply (reads_only_eq _ _ _ _ (reads_only_geocodeCity _ _)) in G.
      apply (reads_only_eq _ _ _ _ (reads_only_fetchWeather _ _ _ _)) in W.
      apply (reads_only_eq _ _ _ _ (reads_only_fetchPlaces _ _)) in R.
      apply (reads_only_eq _ _ _ _ (reads_only_fetchPlaces _ _)) in A.
      assert (S5 : store s5 = store s) by congruence.
      apply prisma_trip_create_returns in C as (Ht & _ & Free & ->).
      right. exists t. rewrite S5 in *. subst t. simpl in *. auto.
  - left. apply plan_trip_try_throws in T. exact T.
Qed.

(** X5: whatever error message the handler sends is not empty: an error
    without text is reported as [Unknown error]. *)
Theorem error_replies_carry_a_message w body s r s' err msg :
  plan_trip_handler w body s = (Return r, s') ->
  sent_body r = ErrorMessage err msg ->
  msg <> EmptyString.
Proof using Type.
  intros H B.
  destruct (plan_trip_handler_cases w body s)
    as [(r0 & s1 & T & Hh) | (e & s0 & T & Hh)];
    rewrite Hh in H; inversion H; subst; clear H.
  - apply plan_trip_try_returns in T.
    destruct T as [(issues & _ & -> & _) | [(p & _ & _ & ->) | T]].
    + discriminate B.
    + inversion B; subst. apply not_found_message_has_text.
    + destruct T as (p & g & x & rs & ats & t & s2 & s3 & s4 & s5 & T).
      destruct T as (_ & _ & _ & _ & _ & _ & ->). discriminate B.
  - inversion B; subst. apply server_error_has_text.
Qed.

(** *** The requests a run issues *)

Lemma normalize_state f s o s' : normalize f s = (o, s') -> s' = s.
Proof using Type.
  unfold normalize, member, bind.
  destruct (nullish f); intros H; inversion H; reflexivity.
Qed.

Lemma mapM_normalize_state fs s o s' : mapM normalize fs s = (o, s') -> s' = s.
Proof using Type.
  revert o s'. induction fs as [| f rest IH]; simpl; intros o s' H.
  - inversion H; reflexivity.
  - unfold bind in H.
    destruct (normalize f s) as [[pl | e] s1] eqn:N;
      apply normalize_state in N; subst s1; [| inversion H; reflexivity].
    pose proof (IH _ _ (surjective_pairing (mapM normalize rest s))) as R.
    destruct (mapM normalize rest s) as [[pls | e] s2]; simpl in R; subst s2;
      inversion H; reflexivity.
Qed.

Lemma fetchWeather_returns w la lo tz s weather s' :
  fetchWeather w la lo tz s = (Return weather, s') ->
  exists enc,
    encodeURIComponent (ToString (or_else tz (VStr "auto"))) = Some enc
    /\ s' = {| store := store s;
               log := (log s ++ [Fetch (weather_url la lo enc)])%list |}.
Proof using Type.
  intros H. unfold fetchWeather in H.
  apply bind_returns in H as (enc & s0 & He & H).
  apply encode_returns in He as [Eq ->].
  apply bind_returns in H as (resp & s2 & Hf & H).
  apply fetch_returns in Hf as ->.
  destruct (negb (ok resp)); [discriminate H |].
  apply bind_returns in H as (data & s3 & Hj & H).
  apply resp_json_returns in Hj as ->.
  exists enc. split; [exact Eq |]. inversion H; reflexivity.
Qed.

Lemma fetchPlaces_returns w a s places s' :
  fetchPlaces w a s = (Return places, s') ->
  exists key cats ekey,
    GEOAPIFY_API_KEY w = Some key /\ key <> EmptyString
    /\ encodeURIComponent (q_categories a) = Some cats
    /\ encodeURIComponent key = Some ekey
    /\ s' = {| store := store s;
               log := (log s ++ [Fetch (places_url a cats ekey)])%list |}.
Proof using Type.
  intros H. unfold fetchPlaces in H.
  destruct (GEOAPIFY_API_KEY w) as [key |] eqn:K; [| discriminate H].
  simpl in H. destruct (key =? EmptyString)%string eqn:Ke; [discriminate H |].
  apply String.eqb_neq in Ke.
  apply bind_returns in H as (cats & s0 & Hc & H).
  apply encode_returns in Hc as [Ec ->].
  apply bind_returns in H as (ekey & s1 & Hk & H).
  apply encode_returns in Hk as [Ek ->].
  apply bind_returns in H as (resp & s2 & Hf & H).
  apply fetch_returns in Hf as ->.
  destruct (negb (ok resp)); [discriminate H |].
  apply bind_returns in H as (data & s3 & Hj & H).
  apply resp_json_returns in Hj as ->.
  exists key, cats, ekey.
  split; [reflexivity |]. split; [exact Ke |]. split; [exact Ec |].
  split; [exact Ek |].
  destruct (nullish_or _ _); try discriminate H.
  apply mapM_normalize_state in H. exact H.
Qed.

Lemma fetch_returned w url s r s' :
  fetch w url s = (Return r, s') ->
  network w url = Answer r /\ s' = after_fetch s url.
Proof using Type.
  unfold fetch, bind, emit.
  destruct (network w url); intros H; inversion H; subst; auto.
Qed.

Lemma resp_json_returned r s v s' :
  resp_json r s = (Return v, s') -> json r = inr v /\ s' = s.
Proof using Type.
  unfold resp_json. destruct (json r); intros H; inversion H; subst; auto.
Qed.

(** A destination resolves only through an answer of the geocoder, and to
    the first of its results. *)
Lemma geocodeCity_resolved w d s geo s1 :
  geocodeCity w d s = (Return (Some geo), s1) ->
  exists q resp data,
    encodeURIComponent d = Some q
    /\ network w (geocode_url q) = Answer resp
    /\ ok resp = true
    /\ json resp = inr data
    /\ truthy (top_result data) = true
    /\ geo = match_of data
    /\ s1 = after_fetch s (geocode_url q).
Proof using Type.
  intros H. unfold geocodeCity in H.
  apply bind_returns in H as (q & s0 & Hq & H).
  apply encode_returns in Hq as [Eq ->].
  apply bind_returns in H as (resp & s2 & Hf & H).
  apply fetch_returned in Hf as [N ->].
  destruct (ok resp) eqn:K; [| discriminate H]. cbn [negb] in H.
  apply bind_returns in H as (data & s3 & Hj & H).
  apply resp_json_returned in Hj as [J ->].
  exists q, resp, data.
  fold (top_result data) in H.
  destruct (truthy (top_result data)) eqn:T; cbn [negb] in H;
    inversion H; subst; clear H.
  repeat (split; [assumption || reflexivity |]). reflexivity.
Qed.

(** X6: a request answered 201 has issued four fetches and one write, in
    this order: the geocoder, asked for the destination of the body; the
    forecast, for the latitude, the longitude and the time zone of the
    first result the geocoder answered; the restaurants and cafes within
    5000 m, then the attractions and sights within 8000 m, of that same
    longitude and latitude, twelve at most each, with the key of the
    environment; then the write of the row that is sent back. *)
Theorem success_issues_four_fetches_then_one_write w body s r s' :
  plan_trip_handler w body s = (Return r, s') ->
  sent_status r = 201 ->
  exists parsed q resp data tz cats1 cats2 k key t,
    safeParse body = inr parsed
    /\ encodeURIComponent (destination parsed) = Some q
    /\ network w (geocode_url q) = Answer resp
    /\ json resp = inr data
    /\ encodeURIComponent
         (ToString (or_else (prop (top_result data) "timezone") (VStr "auto"))) = Some tz
    /\ encodeURIComponent "catering.restaurant,catering.cafe" = Some cats1
    /\ encodeURIComponent "tourism.attraction,tourism.sights" = Some cats2
    /\ GEOAPIFY_API_KEY w = Some k
    /\ encodeURIComponent k = Some key
    /\ sent_body r = TripRecord t
    /\ log s'
       = (log s
          ++ [ Fetch (geocode_url q);
               Fetch (weather_url (prop (top_result data) "latitude")
                        (prop (top_result data) "longitude") tz);
               Fetch (places_url
                        {| q_lon := prop (top_result data) "longitude";
                           q_lat := prop (top_result data) "latitude";
                           radiusMeters := 5000;
                           q_categories := "catering.restaurant,catering.cafe";
                           limit := Some 12 |} cats1 key);
               Fetch (places_url
                        {| q_lon := prop (top_result data) "longitude";
                           q_lat := prop (top_result data) "latitude";
                           radiusMeters := 8000;
                           q_categories := "tourism.attraction,tourism.sights";
                           limit := Some 12 |} cats2 key);
               TripCreate (columns t) ])%list.
Proof using Type.
  intros H St.
  destruct (plan_trip_handler_cases w body s)
    as [(r0 & s1 & T & Hh) | (e & s0 & T & Hh)];
    rewrite Hh in H; inversion H; subst; clear H; [| discriminate St].
  apply plan_trip_try_returns in T.
  destruct T as [(issues & _ & -> & _) | [(p & _ & _ & ->) | T]];
    try discriminate St.
  destruct T as (p & geo & x & rs & ats & t & s2 & s3 & s4 & s5 & T).
  destruct T as (P & G & W & R & A & C & ->).
  apply geocodeCity_resolved in G as (q & resp & data & Eq & N & _ & J & _ & -> & ->).
  apply fetchWeather_returns in W as (tz & Etz & ->).
  apply fetchPlaces_returns in R as (k1 & cats1 & ek1 & K1 & _ & Ec1 & E1 & ->).
  apply fetchPlaces_returns in A as (k2 & cats2 & ek2 & K2 & _ & Ec2 & E2 & ->).
  rewrite K1 in K2. inversion K2; subst k2. rewrite E1 in E2. inversion E2; subst ek2.
  apply prisma_trip_create_returns in C as (Ht & _ & _ & ->).
  subst t. exists p, q, resp, data, tz, cats1, cats2, k1, ek1. eexists.
  split; [exact P |]. split; [exact Eq |]. split; [exact N |]. split; [exact J |].
  split; [exact Etz |]. split; [exact Ec1 |]. split; [exact Ec2 |].
  split; [exact K1 |]. split; [exact E1 |]. split; [reflexivity |].
  unfold after_fetch. cbn [store log columns]. rewrite <- !app_assoc. reflexivity.
Qed.

Lemma geocodeCity_status w d q resp s :
  encodeURIComponent d = Some q ->
  network w (geocode_url q) = Answer resp ->
  ok resp = false ->
  geocodeCity w d s
  = (Throw (Error ("Geocoding failed with status " ++ ToString (num (status resp)))),
     {| store := store s; log := (log s ++ [Fetch (geocode_url q)])%list |}).
Proof using Type.
  intros E N K. unfold geocodeCity.
  rewrite (bind_return_eq _ _ _ _ _ (encode_some _ _ _ E)). cbv zeta.
  rewrite (bind_return_eq _ _ _ _ _ (fetch_answer _ _ _ _ N)).
  rewrite K. reflexivity.
Qed.

Lemma geocodeCity_no_match w d q resp data s :
  encodeURIComponent d = Some q ->
  network w (geocode_url q) = Answer resp ->
  ok resp = true ->
  json resp = inr data ->
  truthy (opt_index (opt_prop data "results") 0) = false ->
  geocodeCity w d s
  = (Return None,
     {| store := store s; log := (log s ++ [Fetch (geocode_url q)])%list |}).
Proof using Type.
  intros E N K J T. unfold geocodeCity.
  rewrite (bind_return_eq _ _ _ _ _ (encode_some _ _ _ E)). cbv zeta.
  rewrite (bind_return_eq _ _ _ _ _ (fetch_answer _ _ _ _ N)).
  rewrite K. cbn [negb].
  rewrite (bind_return_eq _ _ _ _ _ (resp_json_value _ _ _ J)).
  rewrite T. reflexivity.
Qed.

(** X7: when the geocoder answers a valid request with a status outside
    200-299, the handler answers 500 with that status in the message; the
    geocoding fetch is the only request issued and the store is as
    before. *)
Theorem geocoder_failure_is_500 w body parsed q resp s :
  safeParse body = inr parsed ->
  encodeURIComponent (destination parsed) = Some q ->
  network w (geocode_url q) = Answer resp ->
  ok resp = false ->
  plan_trip_handler w body s
  = (Return {| sent_status := 500;
               sent_body := ErrorMessage "Server error"
                 ("Geocoding failed with status " ++ ToString (num (status resp))) |},
     {| store := store s;
        log := (log s
                ++ [ Fetch (geocode_url q);
                     ConsoleError (Error ("Geocoding failed with status "
                                          ++ ToString (num (status resp)))) ])%list |}).
Proof using Type.
  intros P E N K.
  unfold plan_trip_handler, try_catch, plan_trip_try. rewrite P.
  rewrite (bind_throw_eq _ _ _ _ _ (geocodeCity_status _ _ _ _ _ E N K)).
  unfold bind, emit, ret, server_error. cbn [message store log].
  rewrite <- app_assoc. reflexivity.
Qed.

(** X8: a geocoder answer without a [results] array, or with an empty
    one, is no match: the valid request is answered 404. *)
Theorem empty_results_are_no_match w body parsed q resp data s :
  safeParse body = inr parsed ->
  encodeURIComponent (destination parsed) = Some q ->
  network w (geocode_url q) = Answer resp ->
  ok resp = true ->
  json resp = inr data ->
  (nullish data = true \/ nullish (prop data "results") = true
   \/ prop data "results" = VArr []) ->
  plan_trip_handler w body s
  = (Return {| sent_status := 404;
               sent_body := ErrorMessage "Destination not found"
                              (not_found_message (destination parsed)) |},
     {| store := store s; log := (log s ++ [Fetch (geocode_url q)])%list |}).
Proof using Type.
  intros P E N K J D.
  assert (T : truthy (opt_index (opt_prop data "results") 0) = false).
  { unfold opt_index, opt_prop.
    destruct D as [D | [D | D]].
    - rewrite D. reflexivity.
    - destruct (nullish data); [reflexivity |]. rewrite D. reflexivity.
    - destruct (nullish data); [reflexivity |]. rewrite D. reflexivity. }
  unfold plan_trip_handler, try_catch, plan_trip_try. rewrite P.
  rewrite (bind_return_eq _ _ _ _ _ (geocodeCity_no_match _ _ _ _ _ _ E N K J T)).
  reflexivity.
Qed.

(** *** The forecast and the places clients at their edges *)

(** A time zone that is missing, [null] or empty is asked as [auto]: the
    call behaves as the call with that text. *)
Lemma fetchWeather_defaults_to_auto w la lo tz :
  truthy tz = false ->
  fetchWeather w la lo tz = fetchWeather w la lo (VStr "auto").
Proof using Type.
  intros H. unfold fetchWeather, or_else. rewrite H. reflexivity.
Qed.

(** X9: a forecast answered with success but without a [daily] object
    does not fail: the four series are empty arrays. *)
Theorem fetchWeather_without_daily_is_empty w la lo tz enc resp data s :
  encodeURIComponent (ToString (or_else tz (VStr "auto"))) = Some enc ->
  network w (weather_url la lo enc) = Answer resp ->
  ok resp = true ->
  json resp = inr data ->
  nullish (opt_prop data "daily") = true ->
  fetchWeather w la lo tz s
  = (Return {| time := VArr []; tempMax := VArr []; tempMin := VArr [];
               precipitation := VArr [] |},
     {| store := store s; log := (log s ++ [Fetch (weather_url la lo enc)])%list |}).
Proof using Type.
  intros E N K J D. unfold fetchWeather.
  rewrite (bind_return_eq _ _ _ _ _ (encode_some _ _ _ E)). cbv zeta.
  fold (weather_url la lo enc).
  rewrite (bind_return_eq _ _ _ _ _ (fetch_answer _ _ _ _ N)).
  rewrite K. cbn [negb].
  rewrite (bind_return_eq _ _ _ _ _ (resp_json_value _ _ _ J)).
  cbv zeta. unfold opt_prop at 1 3 5 7. rewrite D. reflexivity.
Qed.

Lemma mapM_normalize_nullish fs s :
  Exists (fun f => nullish f = true) fs ->
  exists e, mapM normalize fs s = (Throw e, s).
Proof using Type.
  induction 1 as [f rest Hf | f rest _ IH]; simpl.
  - exists (cannot_read f "properties").
    unfold bind, normalize, member. rewrite Hf. reflexivity.
  - destruct IH as (e & IH). unfold bind.
    destruct (normalize f s) as [[pl | e0] s1] eqn:N;
      apply normalize_state in N as Hs; subst s1.
    + rewrite IH. eauto.
    + eauto.
Qed.

(** X10: one [null] among the features of an answer makes the whole call
    throw: no partial list of places is returned. *)
Theorem fetchPlaces_fails_on_a_null_feature w a key cats ekey resp data features s :
  GEOAPIFY_API_KEY w = Some key ->
  key <> EmptyString ->
  encodeURIComponent (q_categories a) = Some cats ->
  encodeURIComponent key = Some ekey ->
  network w (places_url a cats ekey) = Answer resp ->
  ok resp = true ->
  json resp = inr data ->
  opt_prop data "features" = VArr features ->
  Exists (fun f => nullish f = true) features ->
  exists e,
    fetchPlaces w a s
    = (Throw e,
       {| store := store s; log := (log s ++ [Fetch (places_url a cats ekey)])%list |}).
Proof using Type.
  intros K Ke Ec Ek N Ok J F X. unfold fetchPlaces. rewrite K.
  apply String.eqb_neq in Ke. cbn [key_missing]. rewrite Ke.
  rewrite (bind_return_eq _ _ _ _ _ (encode_some _ _ _ Ec)).
  rewrite (bind_return_eq _ _ _ _ _ (encode_some _ _ _ Ek)). cbv zeta.
  fold (places_url a cats ekey).
  rewrite (bind_return_eq _ _ _ _ _ (fetch_answer _ _ _ _ N)).
  rewrite Ok. cbn [negb].
  rewrite (bind_return_eq _ _ _ _ _ (resp_json_value _ _ _ J)).
  rewrite F. cbn [nullish_or nullish].
  apply mapM_normalize_nullish. exact X.
Qed.

(** X11: an answer of the places service without [features] is an empty
    list of places, not an error. *)
Theorem fetchPlaces_without_features_is_empty w a key cats ekey resp data s :
  GEOAPIFY_API_KEY w = Some key ->
  key <> EmptyString ->
  encodeURIComponent (q_categories a) = Some cats ->
  encodeURIComponent key = Some ekey ->
  network w (places_url a cats ekey) = Answer resp ->
  ok resp = true ->
  json resp = inr data ->
  nullish (opt_prop data "features") = true ->
  fetchPlaces w a s
  = (Return [],
     {| store := store s; log := (log s ++ [Fetch (places_url a cats ekey)])%list |}).
Proof using Type.
  intros K Ke Ec Ek N Ok J F. unfold fetchPlaces. rewrite K.
  apply String.eqb_neq in Ke. cbn [key_missing]. rewrite Ke.
  rewrite (bind_return_eq _ _ _ _ _ (encode_some _ _ _ Ec)).
  rewrite (bind_return_eq _ _ _ _ _ (encode_some _ _ _ Ek)). cbv zeta.
  fold (places_url a cats ekey).
  rewrite (bind_return_eq _ _ _ _ _ (fetch_answer _ _ _ _ N)).
  rewrite Ok. cbn [negb].
  rewrite (bind_return_eq _ _ _ _ _ (resp_json_value _ _ _ J)).
  unfold nullish_or. rewrite F. reflexivity.
Qed.

(** X12: a server without the places key still asks the geocoder and the
    forecast before it fails: the valid request is answered 500 with the
    configuration error, after those two fetches and with nothing
    stored. *)
Theorem missing_key_fails_after_two_fetches w body parsed geo weather s s1 s2 :
  safeParse body = inr parsed ->
  geocodeCity w (destination parsed) s = (Return (Some geo), s1) ->
  fetchWeather w (latitude geo) (longitude geo) (timezone geo) s1 = (Return weather, s2) ->
  GEOAPIFY_API_KEY w = None ->
  exists u1 u2,
    plan_trip_handler w body s
    = (Return {| sent_status := 500;
                 sent_body := ErrorMessage "Server error"
                                "Missing GEOAPIFY_API_KEY in backend/.env" |},
       {| store := store s;
          log := (log s
                  ++ [ Fetch u1; Fetch u2;
                       ConsoleError (Error "Missing GEOAPIFY_API_KEY in backend/.env")
                     ])%list |}).
Proof using Type.
  intros P G W K.
  unfold plan_trip_handler, try_catch, plan_trip_try. rewrite P.
  rewrite (bind_return_eq _ _ _ _ _ G).
  rewrite (bind_return_eq _ _ _ _ _ W).
  assert (F : fetchPlaces w (restaurants_query geo) s2
              = (Throw (Error "Missing GEOAPIFY_API_KEY in backend/.env"), s2)).
  { unfold fetchPlaces. rewrite K. reflexivity. }
  rewrite (bind_throw_eq _ _ _ _ _ F).
  apply geocodeCity_returns in G as (q & _ & ->).
  apply fetchWeather_returns in W as (tz & _ & ->).
  exists (geocode_url q), (weather_url (latitude geo) (longitude geo) tz).
  unfold bind, emit, ret, server_error. cbn [message store log String.eqb].
  rewrite <- !app_assoc. reflexivity.
Qed.

(** *** Reading back *)

Lemma find_app_last {A} (f : A -> bool) l x :
  find f (l ++ [x])
  = match find f l with
    | Some y => Some y
    | None => if f x then Some x else None
    end.
Proof using Type.
  induction l as [| y rest IH]; simpl.
  - reflexivity.
  - destruct (f y); [reflexivity | exact IH].
Qed.

(** X13: a trip that was planned can be read back: after a 201 the read
    of the id of the row sent, when the lookup does not fail, answers 200
    with that row. *)
Theorem planned_trip_can_be_read_back w w' body s r s' :
  plan_trip_handler w body s = (Return r, s') ->
  sent_status r = 201 ->
  read_fault w' = None ->
  exists t,
    sent_body r = TripRecord t
    /\ get_trip_handler w' (id t) s'
       = (Return {| sent_status := 200; sent_body := TripRecord t |},
          {| store := store s'; log := (log s' ++ [TripFindUnique (id t)])%list |}).
Proof using Type.
  intros H St Rf.
  destruct (plan_trip_created _ _ _ _ _ H St)
    as (p & g & x & rs & ats & t & _ & B & _ & Free & S').
  exists t. split; [exact B |].
  unfold get_trip_handler, prisma_trip_findUnique, bind, emit. rewrite Rf.
  cbn [store log]. rewrite S'. unfold find_trip, insert_trip. cbn [trips].
  rewrite find_app_last. unfold find_trip in Free. rewrite Free.
  rewrite String.eqb_refl. reflexivity.
Qed.

(** X14: planning never rewrites or removes a trip: whatever id could be
    read before a request reads the same row after it. *)
Theorem planning_keeps_existing_trips w body s r s' i t :
  plan_trip_handler w body s = (Return r, s') ->
  find_trip (store s) i = Some t ->
  find_trip (store s') i = Some t.
Proof using Type.
  intros H F.
  destruct (plan_trip_handler_store w body s r s' H) as [-> | (t' & _ & ->)].
  - exact F.
  - unfold find_trip, insert_trip in *. cbn [trips].
    rewrite find_app_last, F. reflexivity.
Qed.

(** X15: the read of one trip, when the lookup does not fail, answers 404
    with [Trip not found] for an id no row has, and otherwise 200 with a
    row of the store whose id is the one asked; it changes no row. *)
Theorem get_trip_answers_by_id w i s :
  read_fault w = None ->
  exists r,
    get_trip_handler w i s
    = (Return r, {| store := store s; log := (log s ++ [TripFindUnique i])%list |})
    /\ ((r = {| sent_status := 404; sent_body := ErrorOnly "Trip not found" |}
         /\ forall t, In t (trips (store s)) -> id t <> i)
        \/ exists t,
             r = {| sent_status := 200; sent_body := TripRecord t |}
             /\ In t (trips (store s)) /\ id t = i).
Proof using Type.
  intros Rf. unfold get_trip_handler, prisma_trip_findUnique, bind, emit.
  rewrite Rf. cbn [store log].
  destruct (find_trip (store s) i) as [t |] eqn:F.
  - eexists. split; [reflexivity |]. right. exists t.
    apply find_some in F. destruct F as [Hin E]. apply String.eqb_eq in E. auto.
  - eexists. split; [reflexivity |]. left. split; [reflexivity |].
    intros t Hin E. pose proof (find_none _ _ F t Hin) as N. cbv beta in N.
    rewrite E, String.eqb_refl in N. discriminate N.
Qed.

(** *** The routes *)

(** On paths spelled as the routes spell them, the application handles
    three kinds of request and no other: a GET of the health path, a POST
    of the plan path, a GET of the trips path followed by one segment that
    is not empty, which is the id read. *)
Lemma only_three_routes w req m :
  app w req = Some m ->
  (method req = GET /\ url_path req = ["api"; "health"] /\ m = health_handler)
  \/ (method req = POST /\ url_path req = ["api"; "trips"; "plan"]
      /\ m = plan_trip_handler w (req_body req))
  \/ (exists i, method req = GET /\ url_path req = ["api"; "trips"; i]
                /\ i <> EmptyString /\ m = get_trip_handler w i).
Proof using Type.
  destruct req as [mth path qry bd]. unfold app, routes.
  cbn [dispatch method url_path req_body].
  destruct mth; cbn [Method_eqb];
    destruct path as [| a [| b [| c [| d rest]]]]; cbn [match_path];
    repeat match goal with
      | |- context [(?x =? ?y)%string] =>
          destruct (String.eqb_spec x y); subst; cbn [match_path option_map]
      end;
    intros H; inversion H; subst; clear H; auto; try discriminate.
  right. right. exists c. auto.
Qed.

(** ** Properties of the web client *)

(** *** [request] *)

(** X16: a body that is not JSON does not make [request] fail by itself:
    with a status in 200-299 the result is [null], with any other the
    error tells the status. *)
Theorem request_survives_a_body_that_is_no_json net path options res e :
  net (API_BASE ++ path) (request_init options) = Answer res ->
  json res = inl e ->
  request net path options
  = if ok res then Return VNull
    else Throw (Error (ToString (VStr ("Request failed with status "
                                       ++ ToString (num (status res)))))).
Proof using Type.
  intros N J. unfold request. cbv zeta. rewrite N, J.
  destruct (ok res); reflexivity.
Qed.

Lemma truthy_text m : m <> EmptyString -> truthy (VStr m) = true.
Proof using Type.
  intros H. simpl. apply String.eqb_neq in H. rewrite H. reflexivity.
Qed.

(** What [request] makes of a reply of the server that reaches it. *)
Lemma request_of_reply net path options r :
  (forall t, ToString (VStr t) = t) ->
  net (API_BASE ++ path) (request_init options) = Answer (deliver r) ->
  ok (deliver r) = false ->
  (forall d, sent_body r = InvalidInput d ->
             request net path options = Throw (Error "Invalid input"))
  /\ (forall err m, sent_body r = ErrorMessage err m -> m <> EmptyString ->
                    request net path options = Throw (Error m))
  /\ (forall err, sent_body r = ErrorOnly err -> err <> EmptyString ->
                  request net path options = Throw (Error err)).
Proof using Type.
  intros TS N K. unfold request. cbv zeta. rewrite N, K.
  unfold deliver. cbn [json negb].
  split; [| split].
  - intros d B. rewrite B. cbn. rewrite TS. reflexivity.
  - intros err m B Hm. rewrite B. unfold wire, opt_prop. cbn [nullish prop].
    assert (E : own [("error", VStr err); ("message", VStr m)] "message" = VStr m)
      by reflexivity.
    rewrite E. unfold or_else. rewrite (truthy_text _ Hm), (truthy_text _ Hm).
    rewrite TS. reflexivity.
  - intros err B He. rewrite B. unfold wire, opt_prop. cbn [nullish prop].
    assert (E1 : own [("error", VStr err)] "message" = VUndef) by reflexivity.
    assert (E2 : own [("error", VStr err)] "error" = VStr err) by reflexivity.
    rewrite E1, E2. unfold or_else. change (truthy VUndef) with false.
    cbv iota. rewrite (truthy_text _ He), TS. reflexivity.
Qed.

(** X17: what the planner page is told is what the server answered: the
    row for a 201, the text [Invalid input] for a 400, and for a 404 or a
    500 the message of the reply. *)
Theorem planTrip_reports_the_answer_of_the_server w body s r s' net payload :
  (forall t, ToString (VStr t) = t) ->
  plan_trip_handler w body s = (Return r, s') ->
  net (API_BASE ++ "/api/trips/plan") (request_init (planTrip_options payload))
  = Answer (deliver r) ->
  (sent_status r = 201
   /\ exists t, sent_body r = TripRecord t
                /\ planTrip net payload = Return (trip_json t))
  \/ (sent_status r = 400 /\ planTrip net payload = Throw (Error "Invalid input"))
  \/ (In (sent_status r) [404; 500]
      /\ exists err m, sent_body r = ErrorMessage err m
                       /\ planTrip net payload = Throw (Error m)).
Proof using Type.
  clear ToNumber.
  intros TS H N.
  destruct (plan_trip_handler_cases w body s)
    as [(r0 & s1 & T & Hh) | (e & s0 & T & Hh)];
    rewrite Hh in H; inversion H; subst; clear H.
  - apply plan_trip_try_returns in T.
    destruct T as [(issues & _ & -> & _) | [(p & _ & _ & ->) | T]].
    + right. left. split; [reflexivity |].
      destruct (request_of_reply net _ _ _ TS N eq_refl) as (R1 & _).
      eapply R1. reflexivity.
    + right. right. split; [simpl; tauto |]. eexists _, _. split; [reflexivity |].
      destruct (request_of_reply net _ _ _ TS N eq_refl) as (_ & R2 & _).
      eapply R2; [reflexivity |]. apply not_found_message_has_text.
    + destruct T as (p & g & x & rs & ats & t & s2 & s3 & s4 & s5 & T).
      destruct T as (_ & _ & _ & _ & _ & _ & ->).
      left. split; [reflexivity |]. exists t. split; [reflexivity |].
      unfold planTrip, request. cbv zeta. rewrite N. reflexivity.
  - right. right. split; [simpl; tauto |]. eexists _, _. split; [reflexivity |].
    destruct (request_of_reply net _ _ _ TS N eq_refl) as (_ & R2 & _).
    eapply R2; [reflexivity |]. apply server_error_has_text.
Qed.

(** X18: the detail page is told [Trip not found] for an id that no row
    has, and gets the row otherwise, when the lookup of the server does
    not fail. *)
Theorem getTrip_reports_the_answer_of_the_server w i s r s' net u enc :
  (forall t, ToString (VStr t) = t) ->
  get_trip_handler w i s = (Return r, s') ->
  encodeURIComponent (ToString u) = Some enc ->
  net (API_BASE ++ "/api/trips/" ++ enc) (request_init [("method", VStr "GET")])
  = Answer (deliver r) ->
  (exists t, find_trip (store s) i = Some t /\ getTrip net u = Return (trip_json t))
  \/ (find_trip (store s) i = None /\ getTrip net u = Throw (Error "Trip not found")).
Proof using Type.
  intros TS H E N.
  unfold get_trip_handler in H.
  apply bind_returns in H as (found & s1 & F & H).
  unfold prisma_trip_findUnique in F.
  apply bind_returns in F as ([] & s2 & Em & F).
  unfold emit in Em. inversion Em; subst s2; clear Em.
  destruct (read_fault w); [discriminate F |].
  inversion F; subst found s1; clear F. cbn [store] in H.
  unfold getTrip. rewrite E.
  destruct (find_trip (store s) i) as [t |] eqn:Ft; inversion H; subst r s'; clear H.
  - left. exists t. split; [reflexivity |].
    unfold request. cbv zeta. rewrite N. reflexivity.
  - right. split; [reflexivity |].
    destruct (request_of_reply net _ _ _ TS N eq_refl) as (_ & _ & R3).
    eapply R3; [reflexivity | discriminate].
Qed.

(** *** The options of the fetch *)

Lemma own_set_key k v o k' :
  own (set_key k v o) k' = if (k =? k')%string then v else own o k'.
Proof using Type.
  induction o as [| [k0 v0] rest IH]; simpl.
  - destruct (k =? k')%string; reflexivity.
  - destruct (k0 =? k)%string eqn:E0; simpl.
    + apply String.eqb_eq in E0. subst k0.
      destruct (k =? k')%string; reflexivity.
    + destruct (k0 =? k')%string eqn:E1.
      * apply String.eqb_eq in E1. subst k0. rewrite String.eqb_sym, E0. reflexivity.
      * exact IH.
Qed.

Lemma own_assign_other o extra k :
  ~ In k (map fst extra) -> own (assign o extra) k = own o k.
Proof using Type.
  clear encodeURIComponent ToString ToNumber JSON_stringify Date_parse.
  unfold assign. revert o. induction extra as [| [k0 v0] rest IH]; simpl; intros o H.
  - reflexivity.
  - rewrite IH by tauto. rewrite own_set_key.
    destruct (k0 =? k)%string eqn:E; [| reflexivity].
    apply String.eqb_eq in E. tauto.
Qed.

Lemma own_assign_given o extra k v :
  NoDup (map fst extra) -> In (k, v) extra -> own (assign o extra) k = v.
Proof using Type.
  unfold assign. revert o. induction extra as [| [k0 v0] rest IH]; simpl; intros o N H.
  - contradiction.
  - inversion N as [| ? ? Hn N']; subst. destruct H as [H | H].
    + inversion H; subst.
      change (own (assign (set_key k v o) rest) k = v).
      rewrite own_assign_other by exact Hn.
      rewrite own_set_key, String.eqb_refl. reflexivity.
    + apply IH; assumption.
Qed.

(** X19: [request] passes on every option of the caller but [headers],
    which it replaces by an object that has every header the caller gave,
    with the value the caller gave it, and [Content-Type:
    application/json] unless the caller gave that header. *)
Theorem request_init_keeps_the_options_of_the_caller options given :
  enumerable (or_else (own options "headers") (VObj [])) = given ->
  NoDup (map fst given) ->
  (forall k, k <> "headers" -> own (request_init options) k = own options k)
  /\ own (request_init options) "headers" = VObj (request_headers options)
  /\ (forall k v, In (k, v) given -> own (request_headers options) k = v)
  /\ (~ In "Content-Type" (map fst given) ->
      own (request_headers options) "Content-Type" = VStr "application/json").
Proof using Type.
  intros G N. unfold request_init. split; [| split; [| split]].
  - intros k Hk. rewrite own_set_key.
    destruct ("headers" =? k)%string eqn:E; [| reflexivity].
    apply String.eqb_eq in E. congruence.
  - rewrite own_set_key. reflexivity.
  - intros k v Hin. unfold request_headers. rewrite G.
    apply own_assign_given; assumption.
  - intros Hn. unfold request_headers. rewrite G.
    rewrite own_assign_other by exact Hn. reflexivity.
Qed.

(** *** The cards of the places *)

Lemma card_title_truthy place : truthy (card_title place) = true.
Proof using Type.
  unfold card_title, or_else.
  destruct (truthy (opt_prop place "name")) eqn:E; [exact E | reflexivity].
Qed.

(** X20: the [Open in Maps] link of a card, when the card has one,
    searches for the title of the card: the coordinates decide whether
    the link is there, never where it leads. *)
Theorem maps_link_searches_for_the_title place link :
  card_maps_link place = Some link ->
  link = option_map
           (fun query => "https://www.google.com/maps/search/?api=1&query=" ++ query)
           (encodeURIComponent (ToString (card_title place))).
Proof using Type.
  unfold card_maps_link. cbv zeta.
  destruct (negb _ && negb _); [| discriminate].
  intros H. inversion H. unfold googleMapsLink.
  rewrite card_title_truthy. reflexivity.
Qed.

Lemma normalize_returns f s pl s' :
  normalize f s = (Return pl, s') ->
  truthy (place_name pl) = true
  /\ (distanceMeters pl = VNull \/ nullish (distanceMeters pl) = false).
Proof using Type.
  unfold normalize, member, bind.
  destruct (nullish f); [discriminate |].
  intros H. inversion H; subst; clear H. cbn [place_name distanceMeters]. split.
  - unfold or_else.
    destruct (truthy (prop _ "name")) eqn:E1; cbv iota.
    + rewrite E1. exact E1.
    + destruct (truthy (prop _ "address_line1")) eqn:E2; [exact E2 | reflexivity].
  - unfold nullish_or. destruct (nullish (prop _ "distance")) eqn:E; auto.
Qed.

Lemma truthy_through_json v :
  is_infinite v = false -> truthy (through_json v) = truthy v.
Proof using Type.
  destruct v as [| | b | [q | neg] | str | xs | kvs]; intros H;
    first [reflexivity | discriminate H].
Qed.

(** X21: a place the server normalised, once it has travelled to the page
    as JSON, is shown under the name the server gave it, as JSON gives it
    back; the fallback title of the card is used for it only when that
    name is an infinity, which JSON writes as [null]. *)
Theorem card_shows_the_name_of_the_server f s pl s' :
  normalize f s = (Return pl, s') ->
  card_title (through_json (Place_object pl))
  = (if is_infinite (place_name pl) then VStr "Unknown place"
     else through_json (place_name pl)).
Proof using Type.
  intros H. apply normalize_returns in H as (T & _).
  assert (N : opt_prop (through_json (Place_object pl)) "name"
              = through_json (place_name pl)).
  { unfold Place_object. cbn [through_json]. unfold opt_prop. cbn [nullish prop].
    destruct (placeId pl); cbn [is_undefined];
      destruct (place_name pl); try discriminate T; reflexivity. }
  unfold card_title, or_else. rewrite N.
  destruct (is_infinite (place_name pl)) eqn:I.
  - destruct (place_name pl) as [| | b | [q | neg] | str | xs | kvs];
      try discriminate I. reflexivity.
  - rewrite (truthy_through_json _ I), T. reflexivity.
Qed.

(** *** The order of the places *)

Lemma number_le_trans x y z : number_le x y -> number_le y z -> number_le x z.
Proof using Type.
  destruct x as [p | []], y as [q | []], z as [r | []]; simpl; try tauto.
  apply Qle_trans.
Qed.

Lemma minus_sign_not_gt x y :
  minus_sign (Some x) (Some y) <> Some Gt -> number_le x y.
Proof using Type.
  destruct x as [p | []], y as [q | []]; simpl; try tauto; try congruence.
  intros H. apply Qle_alt. congruence.
Qed.

Lemma minus_sign_gt x y :
  minus_sign x y = Some Gt -> exists a b, x = Some a /\ y = Some b /\ number_le b a.
Proof using Type.
  destruct x as [[p | []] |], y as [[q | []] |]; simpl; try discriminate;
    intros H; eexists _, _; (split; [reflexivity |]); (split; [reflexivity |]);
    simpl; try tauto.
  inversion H as [C]. apply Qlt_le_weak. apply Qgt_alt. exact C.
Qed.

Lemma by_distance_not_gt a b :
  distance_key a <> None -> distance_key b <> None ->
  by_distance a b <> Gt -> no_farther a b.
Proof using Type.
  unfold by_distance, no_farther.
  destruct (distance_key a) as [x |]; [| congruence].
  destruct (distance_key b) as [y |]; [| congruence].
  intros _ _ H. apply minus_sign_not_gt.
  destruct (minus_sign (Some x) (Some y)); congruence.
Qed.

Lemma by_distance_gt a b : by_distance a b = Gt -> no_farther b a.
Proof using Type.
  unfold by_distance, no_farther.
  destruct (minus_sign (distance_key a) (distance_key b)) as [c |] eqn:E;
    [| discriminate].
  intros ->. apply minus_sign_gt in E. destruct E as (x & y & -> & -> & H). exact H.
Qed.

Lemma no_farther_trans a b c : no_farther a b -> no_farther b c -> no_farther a c.
Proof using Type.
  clear encodeURIComponent ToString JSON_stringify Date_parse.
  unfold no_farther.
  destruct (distance_key a), (distance_key b), (distance_key c); try tauto.
  apply number_le_trans.
Qed.

Lemma insert_by_distance_permutes x l :
  Permutation (x :: l) (insert_by by_distance x l).
Proof using Type.
  induction l as [| y rest IH]; simpl.
  - apply Permutation_refl.
  - destruct (by_distance x y); try apply Permutation_refl.
    eapply perm_trans; [apply perm_swap |]. apply perm_skip. exact IH.
Qed.

Lemma insert_by_distance_sorted x l :
  distance_key x <> None ->
  Forall (fun a => distance_key a <> None) l ->
  StronglySorted no_farther l ->
  StronglySorted no_farther (insert_by by_distance x l).
Proof using Type.
  intros Hx Hl Hs. induction Hs as [| y rest Hs IH Hy]; simpl.
  - constructor; constructor.
  - inversion Hl as [| ? ? Hy0 Hrest]; subst.
    destruct (by_distance x y) eqn:C.
    + assert (no_farther x y) by (apply by_distance_not_gt; congruence).
      constructor; [constructor; assumption |].
      constructor; [assumption |].
      eapply Forall_impl; [| exact Hy]. intros z. apply no_farther_trans. assumption.
    + assert (no_farther x y) by (apply by_distance_not_gt; congruence).
      constructor; [constructor; assumption |].
      constructor; [assumption |].
      eapply Forall_impl; [| exact Hy]. intros z. apply no_farther_trans. assumption.
    + constructor; [apply IH; assumption |].
      eapply Permutation_Forall; [apply insert_by_distance_permutes |].
      constructor; [apply by_distance_gt; exact C | exact Hy].
Qed.

Lemma sort_by_distance_permutes l : Permutation l (sort_by by_distance l).
Proof using Type.
  induction l as [| x rest IH]; simpl.
  - constructor.
  - eapply perm_trans; [apply perm_skip; exact IH |].
    apply insert_by_distance_permutes.
Qed.

Lemma sort_by_distance_sorted l :
  Forall (fun a => distance_key a <> None) l ->
  StronglySorted no_farther (sort_by by_distance l).
Proof using Type.
  induction 1 as [| x rest Hx Hrest IH]; simpl.
  - constructor.
  - apply insert_by_distance_sorted; [exact Hx | | exact IH].
    eapply Permutation_Forall; [apply sort_by_distance_permutes | exact Hrest].
Qed.

Lemma partition_permutes (f : value -> bool) l :
  Permutation l (filter (fun v => negb (f v)) l ++ filter f l).
Proof using Type.
  induction l as [| x rest IH]; simpl.
  - constructor.
  - destruct (f x); simpl.
    + apply Permutation_cons_app. exact IH.
    + apply perm_skip. exact IH.
Qed.

Lemma StronglySorted_app {A} (R : A -> A -> Prop) l1 l2 :
  StronglySorted R l1 -> StronglySorted R l2 ->
  (forall a b, In a l1 -> In b l2 -> R a b) ->
  StronglySorted R (l1 ++ l2).
Proof using Type.
  induction 1 as [| x rest Hs IH Hx]; simpl; intros H2 Hc.
  - exact H2.
  - constructor.
    + apply IH; [exact H2 |]. intros a b Ha Hb. apply Hc; [now right | exact Hb].
    + apply Forall_app. split; [exact Hx |].
      apply Forall_forall. intros b Hb. apply Hc; [now left | exact Hb].
Qed.

Lemma StronglySorted_across {A} (R : A -> A -> Prop) l1 l2 :
  StronglySorted R (l1 ++ l2) -> forall a b, In a l1 -> In b l2 -> R a b.
Proof using Type.
  induction l1 as [| x rest IH]; simpl; intros Hs a b Ha Hb.
  - contradiction.
  - inversion Hs as [| ? ? Hs' Hx]; subst. destruct Ha as [<- | Ha].
    + rewrite Forall_forall in Hx. apply Hx. apply in_or_app. now right.
    + eapply IH; eassumption.
Qed.

Lemma undefined_last_sorted l :
  StronglySorted no_farther (filter is_undefined l).
Proof using Type.
  induction l as [| x rest IH]; simpl.
  - constructor.
  - destruct x; simpl; try exact IH.
    constructor; [exact IH |].
    apply Forall_forall. intros b Hb. apply filter_In in Hb. destruct Hb as [_ Hb].
    destruct b; try discriminate Hb. exact I.
Qed.

Lemma array_sort_by_distance l :
  Forall (fun a => distance_key a <> None) l ->
  Permutation l (array_sort by_distance l)
  /\ StronglySorted no_farther (array_sort by_distance l).
Proof using Type.
  intros H. unfold array_sort. split.
  - eapply perm_trans; [apply (partition_permutes is_undefined) |].
    apply Permutation_app_tail. apply sort_by_distance_permutes.
  - apply StronglySorted_app.
    + apply sort_by_distance_sorted.
      rewrite Forall_forall in *. intros a Ha. apply filter_In in Ha. apply H, Ha.
    + apply undefined_last_sorted.
    + intros a b Ha Hb.
      apply filter_In in Hb. destruct Hb as [_ Hb].
      destruct b; try discriminate Hb.
      assert (Ka : distance_key a <> None).
      { rewrite Forall_forall in H. apply H.
        eapply Permutation_in in Ha;
          [| apply Permutation_sym, sort_by_distance_permutes].
        apply filter_In in Ha. apply Ha. }
      unfold no_farther. destruct (distance_key a) as [x |]; [| congruence].
      simpl. destruct x as [p | []]; exact I.
Qed.

(** X22: the places of a section are the places it was given, each once,
    in the order of their distance, those without a distance last, as long
    as every distance that is there converts to a number. *)
Theorem sorted_places_are_in_order_of_distance places xs :
  spread (or_else places (VArr [])) = Some xs ->
  Forall (fun a => distance_key a <> None) xs ->
  exists sorted,
    sorted_places places = Some sorted
    /\ Permutation xs sorted
    /\ StronglySorted no_farther sorted.
Proof using Type.
  intros S H. unfold sorted_places. rewrite S. simpl.
  eexists. split; [reflexivity |]. apply array_sort_by_distance. exact H.
Qed.

(** X23: a collapsed section shows at most six places, and they are the
    nearest: no place it hides is nearer than a place it shows. *)
Theorem collapsed_section_shows_the_nearest_six places xs sorted :
  spread (or_else places (VArr [])) = Some xs ->
  Forall (fun a => distance_key a <> None) xs ->
  sorted_places places = Some sorted ->
  (length (visible_places false sorted) <= 6)%nat
  /\ sorted = (visible_places false sorted ++ skipn 6 sorted)%list
  /\ forall shown hidden,
       In shown (visible_places false sorted) -> In hidden (skipn 6 sorted) ->
       no_farther shown hidden.
Proof using Type.
  intros S H E.
  unfold sorted_places in E. rewrite S in E. simpl in E.
  inversion E; subst sorted; clear E.
  destruct (array_sort_by_distance xs H) as (_ & Hs).
  unfold visible_places. split; [apply firstn_le_length |].
  split; [symmetry; apply firstn_skipn |].
  apply StronglySorted_across. rewrite firstn_skipn. exact Hs.
Qed.

End Server.

(** ** Runs of the model on the sample world *)

Example sample_body_is_valid : safeParse Sample.body = inr Sample.parsed.
Proof. reflexivity. Qed.

Example overflowed_budget_is_refused :
  number_int_positive (VNum (Inf false)) = inl [invalid_type].
Proof. reflexivity. Qed.

(** Version 3 of the library reports both failed checks. *)
Example fractional_negative_budget_has_two_issues :
  number_int_positive (VNum (Fin (-3 # 2))) = inl [invalid_type; too_small].
Proof. reflexivity. Qed.

(** An empty name is no name to [||]; a distance of zero is a distance
    to [??]. *)
Example empty_name_falls_back_to_address :
  name_and_distance
    (normalize (VObj [("properties",
                       VObj [("name", VStr EmptyString);
                             ("address_line1", VStr "Spui 24");
                             ("distance", num 0)])]) Sample.start)
  = Some (VStr "Spui 24", num 0).
Proof. reflexivity. Qed.

(** A [null] among the features makes the callback throw. *)
Example null_feature_throws :
  fst (normalize VNull Sample.start)
  = Throw (Error "Cannot read properties of null (reading 'properties')").
Proof. reflexivity. Qed.

(** The only route under [/api/trips] for a GET takes an id. *)
Example get_trip_is_routed :
  option_map (fun m => fst (m Sample.start))
    (app Sample.ToString Sample.encodeURIComponent Sample.Date_parse Sample.world
       {| method := GET; url_path := ["api"; "trips"; "t1"];
          url_query := []; req_body := VUndef |})
  = Some (Return {| sent_status := 404; sent_body := ErrorOnly "Trip not found" |}).
Proof. reflexivity. Qed.

(** A budget of zero: the answer is 400 and the issues name [budget]. *)
Lemma invalid_body_witness :
  exists details,
    plan_trip_handler Sample.ToString Sample.encodeURIComponent Sample.Date_parse
      Sample.world (Sample.request_body "2026-07-10" "2026-07-14" (num 0)) Sample.start
    = (Return {| sent_status := 400; sent_body := InvalidInput details |}, Sample.start)
    /\ formErrors details = [] /\ names_field "budget" details.
Proof.
  apply (invalid_body_is_400_without_effects Sample.ToString Sample.encodeURIComponent
           Sample.Date_parse Sample.world
           (Sample.request_body "2026-07-10" "2026-07-14" (num 0))
           Sample.start "budget" positive_integer).
  - simpl. tauto.
  - vm_compute; reflexivity.
Defined.

(** The forecast service answers 503. *)
Lemma failed_step_witness :
  exists s'',
    plan_trip_handler Sample.ToString Sample.encodeURIComponent Sample.Date_parse
      (Sample.with_network Sample.network_no_weather Sample.world) Sample.body Sample.start
    = (Return {| sent_status := 500;
                 sent_body := ErrorMessage "Server error" "Weather failed with status 503" |},
       s'')
    /\ store s'' = store Sample.start.
Proof.
  eapply (failed_step_is_500_and_nothing_is_stored Sample.ToString
            Sample.encodeURIComponent Sample.Date_parse
            (Sample.with_network Sample.network_no_weather Sample.world)
            Sample.body Sample.parsed _ Sample.start _
            (Error "Weather failed with status 503")).
  - vm_compute; reflexivity.
  - vm_compute; reflexivity.
  - apply weather_fails. vm_compute; reflexivity.
Defined.

(** The geocoder answers without results. *)
Lemma unresolved_destination_witness :
  exists s1,
    plan_trip_handler Sample.ToString Sample.encodeURIComponent Sample.Date_parse
      (Sample.with_network Sample.network_no_match Sample.world) Sample.body Sample.start
    = (Return {| sent_status := 404;
                 sent_body := ErrorMessage "Destination not found"
                   ("Could not find coordinates for " ++ dquote ++ "Amsterdam"
                    ++ dquote ++ ". Try a bigger city name.") |}, s1)
    /\ store s1 = store Sample.start
    /\ exists q, log s1 = [Fetch (geocode_url q)].
Proof.
  eexists.
  eapply (unresolved_destination_is_404 Sample.ToString Sample.encodeURIComponent
            Sample.Date_parse
            (Sample.with_network Sample.network_no_match Sample.world)
            Sample.body Sample.parsed Sample.start).
  - vm_compute; reflexivity.
  - vm_compute; reflexivity.
Defined.

(** Every service answers and the write goes through: the text sent was
    [Mokum], the geocoder answered [Amsterdam]; the row has the latter as
    its destination and the plan the former as its query. *)
Lemma success_witness :
  exists trip s5,
    plan_trip_handler Sample.ToString Sample.encodeURIComponent Sample.Date_parse
      Sample.world Sample.nickname_body Sample.start
    = (Return {| sent_status := 201; sent_body := TripRecord trip |}, s5)
    /\ data_destination (columns trip) = VStr "Amsterdam"
    /\ query (plan_destination (data_planJson (columns trip))) = "Mokum"
    /\ In trip (trips (store s5)).
Proof.
  do 2 eexists.
  eapply (success_is_201_with_resolved_name Sample.ToString Sample.encodeURIComponent
            Sample.Date_parse Sample.world Sample.nickname_body Sample.nickname_parsed
            "Mokum" {| status := 200; json := inr Sample.amsterdam |} Sample.amsterdam).
  - vm_compute; reflexivity.
  - vm_compute; reflexivity.
  - vm_compute; reflexivity.
  - vm_compute; reflexivity.
  - vm_compute; reflexivity.
  - vm_compute; reflexivity.
  - vm_compute; reflexivity.
  - vm_compute; reflexivity.
  - vm_compute; reflexivity.
  - vm_compute; reflexivity.
Defined.

(** No key in the environment. *)
Lemma fetchPlaces_without_key_witness :
  fetchPlaces Sample.ToString Sample.encodeURIComponent
    (Sample.without_key Sample.world)
    {| q_lon := num 5; q_lat := num 52; radiusMeters := 5000;
       q_categories := "catering.restaurant,catering.cafe"; limit := None |}
    Sample.start
  = (Throw (Error "Missing GEOAPIFY_API_KEY in backend/.env"), Sample.start).
Proof.
  apply (fetchPlaces_without_key_throws_first Sample.ToString Sample.encodeURIComponent).
  reflexivity.
Defined.


(** The sample request, twice. *)
Lemma planning_twice_witness :
  exists r1 s1 r2 s2 t1 t2,
    plan_trip_handler Sample.ToString Sample.encodeURIComponent Sample.Date_parse
      Sample.world Sample.body Sample.start = (Return r1, s1)
    /\ plan_trip_handler Sample.ToString Sample.encodeURIComponent Sample.Date_parse
         (Sample.later Sample.world) Sample.body s1 = (Return r2, s2)
    /\ sent_body r1 = TripRecord t1
    /\ sent_body r2 = TripRecord t2
    /\ trips (store s2) = [t1; t2]
    /\ id t1 <> id t2.
Proof.
  eassert (H1 : plan_trip_handler Sample.ToString Sample.encodeURIComponent
                  Sample.Date_parse Sample.world Sample.body Sample.start
                = (Return _, _)) by (vm_compute; reflexivity).
  match type of H1 with
  | _ = (_, ?s1) =>
      eassert (H2 : plan_trip_handler Sample.ToString Sample.encodeURIComponent
                      Sample.Date_parse (Sample.later Sample.world) Sample.body s1
                    = (Return _, _)) by (vm_compute; reflexivity)
  end.
  destruct (planning_twice_creates_two_rows _ _ _ _ _ _ _ _ _ _ _
              H1 eq_refl H2 eq_refl) as (t1 & t2 & B1 & B2 & T & N).
  do 4 eexists. exists t1, t2.
  split; [exact H1 |]. split; [exact H2 |]. split; [exact B1 |].
  split; [exact B2 |]. split; [exact T | exact N].
Defined.


(** The lookup rejects: so does the handler, and nothing is sent. *)
Lemma get_trip_rejects_witness :
  get_trip_handler (Sample.with_read_fault (Error "Connection terminated") Sample.world)
    "t1" Sample.start
  = (Throw (Error "Connection terminated"),
     {| store := store Sample.start; log := [TripFindUnique "t1"] |}).
Proof.
  apply (get_trip_rejects_when_lookup_fails
           (Sample.with_read_fault (Error "Connection terminated") Sample.world)).
  reflexivity.
Defined.

(** ** Further runs on the sample world *)

(** The sample body meets the six rules with a budget of 1200: it is
    accepted. *)
Lemma accepted_body_witness : exists parsed, safeParse Sample.body = inr parsed.
Proof.
  apply (proj2 (safeParse_accepts_what_the_rules_allow Sample.body)).
  - intros k req Hin. simpl in Hin.
    destruct Hin as [H | [H | [H | [H | [H | [H | []]]]]]];
      inversion H; subst; reflexivity.
  - reflexivity.
Defined.

(** The sample body: the budget parsed is the number of the body. *)
Lemma parsed_data_witness :
  exists q,
    own [("userId", VStr "u1"); ("destination", VStr "Amsterdam");
         ("startDate", VStr "2026-07-10"); ("endDate", VStr "2026-07-14");
         ("budget", num 1200); ("vibe", VStr "techno")] "budget" = VNum (Fin q)
    /\ q == inject_Z 1200.
Proof.
  destruct (parsed_data_are_the_fields_of_the_body
              [("userId", VStr "u1"); ("destination", VStr "Amsterdam");
               ("startDate", VStr "2026-07-10"); ("endDate", VStr "2026-07-14");
               ("budget", num 1200); ("vibe", VStr "techno")]
              Sample.parsed eq_refl) as (_ & _ & _ & _ & _ & Q & _).
  exact Q.
Defined.

(** A budget of zero and a vibe that is none of the five: the budget is
    among the keys blamed, and it breaks its rule. *)
Lemma details_witness :
  formErrors (flatten (field_issues
    [("userId", VStr "u1"); ("destination", VStr "Amsterdam");
     ("startDate", VStr "2026-07-10"); ("endDate", VStr "2026-07-14");
     ("budget", num 0); ("vibe", VStr "party")])) = []
  /\ exists req, In ("budget", req) requirements /\ req (num 0) = false.
Proof.
  destruct (details_blame_only_failing_keys Sample.ToString Sample.encodeURIComponent
              Sample.Date_parse Sample.world
              [("userId", VStr "u1"); ("destination", VStr "Amsterdam");
               ("startDate", VStr "2026-07-10"); ("endDate", VStr "2026-07-14");
               ("budget", num 0); ("vibe", VStr "party")]
              Sample.start 400 _ Sample.start eq_refl) as (F & N).
  split; [exact F |].
  apply (N "budget").
  - exists [too_small]. split; [discriminate | vm_compute; tauto].
  - intros _. reflexivity.
Defined.

(** The forecast service answers 503: the message of the 500 has text. *)
Lemma error_message_witness : "Weather failed with status 503" <> EmptyString.
Proof.
  eapply (error_replies_carry_a_message Sample.ToString Sample.encodeURIComponent
            Sample.Date_parse
            (Sample.with_network Sample.network_no_weather Sample.world)
            Sample.body Sample.start _ _ "Server error").
  - vm_compute. reflexivity.
  - reflexivity.
Defined.

(** The sample request, answered 201: the five effects, as they were
    issued. *)
Lemma success_trace_witness :
  exists r s' t,
    plan_trip_handler Sample.ToString Sample.encodeURIComponent Sample.Date_parse
      Sample.world Sample.body Sample.start = (Return r, s')
    /\ sent_body r = TripRecord t
    /\ log s'
       = [ Fetch ("https://geocoding-api.open-meteo.com/v1/search?name=Amsterdam"
                  ++ "&count=1&language=en&format=json");
           Fetch ("https://api.open-meteo.com/v1/forecast?latitude=52&longitude=5"
                  ++ "&daily=temperature_2m_max,temperature_2m_min,precipitation_sum"
                  ++ "&timezone=Europe/Amsterdam");
           Fetch ("https://api.geoapify.com/v2/places"
                  ++ "?categories=catering.restaurant,catering.cafe"
                  ++ "&filter=circle:5,52,5000&limit=12&apiKey=k3y");
           Fetch ("https://api.geoapify.com/v2/places"
                  ++ "?categories=tourism.attraction,tourism.sights"
                  ++ "&filter=circle:5,52,8000&limit=12&apiKey=k3y");
           TripCreate (columns t) ].
Proof.
  eassert (H : plan_trip_handler Sample.ToString Sample.encodeURIComponent
                 Sample.Date_parse Sample.world Sample.body Sample.start
               = (Return _, _)) by (vm_compute; reflexivity).
  destruct (success_issues_four_fetches_then_one_write _ _ _ _ _ _ _ _ H eq_refl)
    as (parsed & q & resp & data & tz & cats1 & cats2 & k & key & t
        & P & Eq & N & J & Etz & E1 & E2 & K & Ek & B & L).
  vm_compute in P. injection P as <-.
  vm_compute in Eq. injection Eq as <-.
  vm_compute in N. injection N as <-.
  vm_compute in J. injection J as <-.
  vm_compute in Etz. injection Etz as <-.
  vm_compute in E1. injection E1 as <-.
  vm_compute in E2. injection E2 as <-.
  vm_compute in K. injection K as <-.
  vm_compute in Ek. injection Ek as <-.
  do 2 eexists. exists t.
  split; [exact H |]. split; [exact B |]. exact L.
Defined.

(** The geocoder answers 502. *)
Lemma geocoder_failure_witness :
  plan_trip_handler Sample.ToString Sample.encodeURIComponent Sample.Date_parse
    (Sample.with_network Sample.network_no_geocoder Sample.world)
    Sample.body Sample.start
  = (Return {| sent_status := 500;
               sent_body := ErrorMessage "Server error"
                 ("Geocoding failed with status " ++ Sample.ToString (num 502)) |},
     {| store := store Sample.start;
        log := (log Sample.start
                ++ [ Fetch (geocode_url "Amsterdam");
                     ConsoleError (Error ("Geocoding failed with status "
                                          ++ Sample.ToString (num 502))) ])%list |}).
Proof.
  apply (geocoder_failure_is_500 Sample.ToString Sample.encodeURIComponent
           Sample.Date_parse
           (Sample.with_network Sample.network_no_geocoder Sample.world)
           Sample.body Sample.parsed "Amsterdam"
           {| status := 502; json := inr VNull |} Sample.start); reflexivity.
Defined.

(** The geocoder answers an object without results. *)
Lemma empty_results_witness :
  plan_trip_handler Sample.ToString Sample.encodeURIComponent Sample.Date_parse
    (Sample.with_network Sample.network_no_match Sample.world)
    Sample.body Sample.start
  = (Return {| sent_status := 404;
               sent_body := ErrorMessage "Destination not found"
                              (not_found_message "Amsterdam") |},
     {| store := store Sample.start;
        log := (log Sample.start ++ [Fetch (geocode_url "Amsterdam")])%list |}).
Proof.
  apply (empty_results_are_no_match Sample.ToString Sample.encodeURIComponent
           Sample.Date_parse
           (Sample.with_network Sample.network_no_match Sample.world)
           Sample.body Sample.parsed "Amsterdam"
           {| status := 200; json := inr (VObj []) |} (VObj []) Sample.start);
    try reflexivity.
  right. left. reflexivity.
Defined.

(** The forecast service answers an empty object. *)
Lemma bare_forecast_witness :
  fetchWeather Sample.ToString Sample.encodeURIComponent
    (Sample.with_network Sample.network_bare_weather Sample.world)
    (num 52) (num 5) (VStr "Europe/Amsterdam") Sample.start
  = (Return {| time := VArr []; tempMax := VArr []; tempMin := VArr [];
               precipitation := VArr [] |},
     {| store := store Sample.start;
        log := (log Sample.start
                ++ [Fetch (weather_url Sample.ToString (num 52) (num 5)
                             "Europe/Amsterdam")])%list |}).
Proof.
  apply (fetchWeather_without_daily_is_empty Sample.ToString Sample.encodeURIComponent
           (Sample.with_network Sample.network_bare_weather Sample.world)
           (num 52) (num 5) (VStr "Europe/Amsterdam") "Europe/Amsterdam"
           {| status := 200; json := inr (VObj []) |} (VObj []) Sample.start);
    reflexivity.
Defined.

(** The places service answers a cafe and a [null]. *)
Lemma null_feature_witness :
  exists e,
    fetchPlaces Sample.ToString Sample.encodeURIComponent
      (Sample.with_network Sample.network_null_feature Sample.world)
      (restaurants_query Sample.geo) Sample.start
    = (Throw e,
       {| store := store Sample.start;
          log := (log Sample.start
                  ++ [Fetch (places_url Sample.ToString (restaurants_query Sample.geo)
                               "catering.restaurant,catering.cafe" "k3y")])%list |}).
Proof.
  apply (fetchPlaces_fails_on_a_null_feature Sample.ToString Sample.encodeURIComponent
           (Sample.with_network Sample.network_null_feature Sample.world)
           (restaurants_query Sample.geo) "k3y" "catering.restaurant,catering.cafe" "k3y"
           {| status := 200;
              json := inr (VObj [("features", VArr [Sample.cafe; VNull])]) |}
           (VObj [("features", VArr [Sample.cafe; VNull])])
           [Sample.cafe; VNull] Sample.start);
    try reflexivity.
  - discriminate.
  - apply Exists_cons_tl. apply Exists_cons_hd. reflexivity.
Defined.

(** The places service answers an empty object. *)
Lemma no_features_witness :
  fetchPlaces Sample.ToString Sample.encodeURIComponent
    (Sample.with_network Sample.network_no_features Sample.world)
    (restaurants_query Sample.geo) Sample.start
  = (Return [],
     {| store := store Sample.start;
        log := (log Sample.start
                ++ [Fetch (places_url Sample.ToString (restaurants_query Sample.geo)
                             "catering.restaurant,catering.cafe" "k3y")])%list |}).
Proof.
  apply (fetchPlaces_without_features_is_empty Sample.ToString Sample.encodeURIComponent
           (Sample.with_network Sample.network_no_features Sample.world)
           (restaurants_query Sample.geo) "k3y" "catering.restaurant,catering.cafe" "k3y"
           {| status := 200; json := inr (VObj []) |} (VObj []) Sample.start);
    try reflexivity.
  discriminate.
Defined.

(** The sample request on a server without the key. *)
Lemma missing_key_witness :
  exists u1 u2,
    plan_trip_handler Sample.ToString Sample.encodeURIComponent Sample.Date_parse
      (Sample.without_key Sample.world) Sample.body Sample.start
    = (Return {| sent_status := 500;
                 sent_body := ErrorMessage "Server error"
                                "Missing GEOAPIFY_API_KEY in backend/.env" |},
       {| store := store Sample.start;
          log := (log Sample.start
                  ++ [ Fetch u1; Fetch u2;
                       ConsoleError (Error "Missing GEOAPIFY_API_KEY in backend/.env")
                     ])%list |}).
Proof.
  eapply (missing_key_fails_after_two_fetches Sample.ToString Sample.encodeURIComponent
            Sample.Date_parse (Sample.without_key Sample.world)
            Sample.body Sample.parsed Sample.geo).
  - reflexivity.
  - vm_compute. reflexivity.
  - vm_compute. reflexivity.
  - reflexivity.
Defined.

(** The sample request, then the read of the row it made. *)
Lemma read_back_witness :
  exists r s' t,
    plan_trip_handler Sample.ToString Sample.encodeURIComponent Sample.Date_parse
      Sample.world Sample.body Sample.start = (Return r, s')
    /\ sent_body r = TripRecord t
    /\ get_trip_handler Sample.world (id t) s'
       = (Return {| sent_status := 200; sent_body := TripRecord t |},
          {| store := store s'; log := (log s' ++ [TripFindUnique (id t)])%list |}).
Proof.
  eassert (H : plan_trip_handler Sample.ToString Sample.encodeURIComponent
                 Sample.Date_parse Sample.world Sample.body Sample.start
               = (Return _, _)) by (vm_compute; reflexivity).
  destruct (planned_trip_can_be_read_back _ _ _ Sample.world Sample.world _ _ _ _
              H eq_refl eq_refl) as (t & B & G).
  do 2 eexists. exists t. split; [exact H |]. split; [exact B | exact G].
Defined.

(** The sample request twice: the first row is still read after the
    second. *)
Lemma existing_trip_witness :
  exists s1 r2 s2 t,
    plan_trip_handler Sample.ToString Sample.encodeURIComponent Sample.Date_parse
      (Sample.later Sample.world) Sample.body s1 = (Return r2, s2)
    /\ find_trip (store s1) "t1" = Some t
    /\ find_trip (store s2) "t1" = Some t.
Proof.
  eassert (H1 : plan_trip_handler Sample.ToString Sample.encodeURIComponent
                  Sample.Date_parse Sample.world Sample.body Sample.start
                = (Return _, _)) by (vm_compute; reflexivity).
  match type of H1 with
  | _ = (_, ?s1) =>
      eassert (H2 : plan_trip_handler Sample.ToString Sample.encodeURIComponent
                      Sample.Date_parse (Sample.later Sample.world) Sample.body s1
                    = (Return _, _)) by (vm_compute; reflexivity);
      eassert (F : find_trip (store s1) "t1" = Some _) by (vm_compute; reflexivity)
  end.
  do 4 eexists. split; [exact H2 |]. split; [exact F |].
  exact (planning_keeps_existing_trips _ _ _ _ _ _ _ _ _ _ H2 F).
Defined.

(** The read of an id that no row has. *)
Lemma get_trip_witness :
  exists r,
    get_trip_handler Sample.world "nope" Sample.start
    = (Return r, {| store := store Sample.start;
                    log := (log Sample.start ++ [TripFindUnique "nope"])%list |})
    /\ ((r = {| sent_status := 404; sent_body := ErrorOnly "Trip not found" |}
         /\ forall t, In t (trips (store Sample.start)) -> id t <> "nope")
        \/ exists t,
             r = {| sent_status := 200; sent_body := TripRecord t |}
             /\ In t (trips (store Sample.start)) /\ id t = "nope").
Proof.
  apply (get_trip_answers_by_id Sample.world "nope" Sample.start). reflexivity.
Defined.


(** A 200 whose body is no JSON. *)
Lemma bad_json_witness :
  request Sample.ToString
    (fun _ _ => Answer {| status := 200; json := inl (Error "Unexpected token <") |})
    "/api/trips/t1" [("method", VStr "GET")]
  = Return VNull.
Proof.
  exact (request_survives_a_body_that_is_no_json Sample.ToString
           (fun _ _ => Answer {| status := 200;
                                 json := inl (Error "Unexpected token <") |})
           "/api/trips/t1" [("method", VStr "GET")]
           {| status := 200; json := inl (Error "Unexpected token <") |}
           (Error "Unexpected token <") eq_refl eq_refl).
Defined.

(** The planner page against a server whose geocoder has no match. *)
Lemma planTrip_witness :
  planTrip Sample.ToString Sample.JSON_stringify
    (fun _ _ =>
       Answer (deliver Sample.details_json Sample.trip_json
                 {| sent_status := 404;
                    sent_body := ErrorMessage "Destination not found"
                                   (not_found_message "Amsterdam") |}))
    Sample.body
  = Throw (Error (not_found_message "Amsterdam")).
Proof.
  eassert (H : plan_trip_handler Sample.ToString Sample.encodeURIComponent
                 Sample.Date_parse
                 (Sample.with_network Sample.network_no_match Sample.world)
                 Sample.body Sample.start
               = (Return {| sent_status := 404;
                            sent_body := ErrorMessage "Destination not found"
                                           (not_found_message "Amsterdam") |}, _))
    by (vm_compute; reflexivity).
  destruct (planTrip_reports_the_answer_of_the_server
              Sample.ToString Sample.encodeURIComponent Sample.Date_parse
              Sample.JSON_stringify Sample.details_json Sample.trip_json
              _ _ _ _ _
              (fun _ _ =>
                 Answer (deliver Sample.details_json Sample.trip_json
                           {| sent_status := 404;
                              sent_body := ErrorMessage "Destination not found"
                                             (not_found_message "Amsterdam") |}))
              Sample.body (fun t => eq_refl) H eq_refl)
    as [(St & _) | [(St & _) | (_ & err & m & B & P)]].
  - discriminate St.
  - discriminate St.
  - inversion B; subst. exact P.
Defined.

(** The detail page for an id that no row has. *)
Lemma getTrip_witness :
  getTrip Sample.ToString Sample.encodeURIComponent
    (fun _ _ =>
       Answer (deliver Sample.details_json Sample.trip_json
                 {| sent_status := 404; sent_body := ErrorOnly "Trip not found" |}))
    (VStr "nope")
  = Throw (Error "Trip not found").
Proof.
  eassert (H : get_trip_handler Sample.world "nope" Sample.start
               = (Return {| sent_status := 404;
                            sent_body := ErrorOnly "Trip not found" |}, _))
    by (vm_compute; reflexivity).
  destruct (getTrip_reports_the_answer_of_the_server
              Sample.ToString Sample.encodeURIComponent
              Sample.details_json Sample.trip_json
              _ _ _ _ _
              (fun _ _ =>
                 Answer (deliver Sample.details_json Sample.trip_json
                           {| sent_status := 404;
                              sent_body := ErrorOnly "Trip not found" |}))
              (VStr "nope") "nope" (fun t => eq_refl) H eq_refl eq_refl)
    as [(t & F & _) | (_ & P)].
  - discriminate F.
  - exact P.
Defined.

(** A caller that gives its own header. *)
Lemma request_init_witness :
  own (request_headers
         [("method", VStr "GET");
          ("headers", VObj [("Authorization", VStr "Bearer abc")])]) "Authorization"
  = VStr "Bearer abc"
  /\ own (request_headers
            [("method", VStr "GET");
             ("headers", VObj [("Authorization", VStr "Bearer abc")])]) "Content-Type"
     = VStr "application/json"
  /\ own (request_init
            [("method", VStr "GET");
             ("headers", VObj [("Authorization", VStr "Bearer abc")])]) "method"
     = VStr "GET".
Proof.
  destruct (request_init_keeps_the_options_of_the_caller
              [("method", VStr "GET");
               ("headers", VObj [("Authorization", VStr "Bearer abc")])]
              [("Authorization", VStr "Bearer abc")] eq_refl)
    as (Other & _ & Given & Default).
  - constructor; [intros [] | constructor].
  - split; [apply Given; now left |].
    split; [apply Default; simpl; intros [E | []]; discriminate E |].
    apply Other. discriminate.
Defined.

(** The card of the place that is 350 m away. *)
Lemma maps_link_witness :
  Some "https://www.google.com/maps/search/?api=1&query=Cafe Luxembourg"
  = option_map
      (fun query => "https://www.google.com/maps/search/?api=1&query=" ++ query)
      (Sample.encodeURIComponent (Sample.ToString (card_title Sample.near))).
Proof.
  apply (maps_link_searches_for_the_title Sample.ToString Sample.encodeURIComponent
           Sample.near).
  reflexivity.
Defined.

(** A feature with an address and no name, and one that has no
    [place_id] and a name that overflowed to an infinity: the first is
    shown under its address, the second as an unknown place. *)
Lemma card_name_witness :
  exists pl1 pl2,
    normalize Sample.nameless Sample.start = (Return pl1, Sample.start)
    /\ normalize Sample.overflowed Sample.start = (Return pl2, Sample.start)
    /\ card_title (through_json (Place_object pl1)) = VStr "Damrak 1"
    /\ card_title (through_json (Place_object pl2)) = VStr "Unknown place".
Proof.
  eassert (H1 : normalize Sample.nameless Sample.start = (Return _, Sample.start))
    by reflexivity.
  eassert (H2 : normalize Sample.overflowed Sample.start = (Return _, Sample.start))
    by reflexivity.
  do 2 eexists. split; [exact H1 |]. split; [exact H2 |].
  split.
  - exact (card_shows_the_name_of_the_server _ _ _ _ H1).
  - exact (card_shows_the_name_of_the_server _ _ _ _ H2).
Defined.

(** Three places, given far first. *)
Lemma sorted_places_witness :
  exists sorted,
    sorted_places Sample.ToNumber (VArr [Sample.far; Sample.somewhere; Sample.near])
    = Some sorted
    /\ Permutation [Sample.far; Sample.somewhere; Sample.near] sorted
    /\ StronglySorted (no_farther Sample.ToNumber) sorted.
Proof.
  apply (sorted_places_are_in_order_of_distance Sample.ToNumber).
  - reflexivity.
  - repeat constructor; intros H; vm_compute in H; discriminate H.
Defined.

(** Eight places: the six within 700 m are shown, the two farther ones
    are hidden. *)
Lemma collapsed_section_witness :
  exists sorted,
    sorted_places Sample.ToNumber (VArr Sample.eight_places) = Some sorted
    /\ visible_places false sorted = map Sample.at_distance [100; 200; 300; 400; 600; 700]
    /\ skipn 6 sorted = map Sample.at_distance [800; 900]
    /\ forall shown hidden,
         In shown (visible_places false sorted) -> In hidden (skipn 6 sorted) ->
         no_farther Sample.ToNumber shown hidden.
Proof.
  eassert (E : sorted_places Sample.ToNumber (VArr Sample.eight_places) = Some _)
    by (vm_compute; reflexivity).
  assert (D : Forall (fun a => distance_key Sample.ToNumber a <> None)
                 Sample.eight_places)
    by (repeat constructor; intros H; vm_compute in H; discriminate H).
  destruct (collapsed_section_shows_the_nearest_six Sample.ToNumber
              (VArr Sample.eight_places) Sample.eight_places _ eq_refl D E)
    as (_ & _ & N).
  eexists. split; [exact E |].
  split; [vm_compute; reflexivity |]. split; [vm_compute; reflexivity |].
  exact N.
Defined.
